(** * A shallow embedding of AWS-AutoSail (Go)

    The retry wrapper [SafeRetry] (package aws), the quota lookup
    [TestVCPUQuotas], the Lightsail wrappers [ListInstances] and
    [DeleteInstanceWithStaticIPCleanup], the name helper [sanitize], the
    SQLite credential store (package store) and the session sweep
    (package session).

    Conventions.
    - A Go [error] is [option string]: [None] is [nil], [Some m] an error
      whose text ([err.Error()], what [%v] prints) is [m].
    - A [time.Duration] and a point in time are [Z] nanoseconds.
    - [float64] is Rocq's primitive binary64 type [float]. *)

From Stdlib Require Import ZArith List String Ascii Bool Lia Floats.
From stdpp Require Import base gmap strings list fin_maps.
Import ListNotations.
Open Scope Z_scope.
Local Set Warnings "-inexact-float".

(* ===================================================================== *)
(** ** float64 conversions used by the Go code *)
(* ===================================================================== *)

Module GoFloat.

(** [float64(z)] for a Go integer [z]: round to nearest binary64. *)
Definition of_Z (z : Z) : float :=
  SF2Prim (binary_normalize prec emax z 0 false).

(** The exact value of a finite float truncated toward zero; 0 for NaN
    and infinities. *)
Definition trunc (f : float) : Z :=
  match Prim2SF f with
  | S754_finite s m e =>
      let v := if 0 <=? e then Z.pos m * 2 ^ e else Z.pos m / 2 ^ (- e) in
      if s then - v else v
  | _ => 0
  end.

Definition is_finite (f : float) : bool :=
  match Prim2SF f with S754_finite _ _ _ | S754_zero _ => true | _ => false end.

(** [int64(f)], also [time.Duration(f)]: truncation toward zero. The Go
    spec leaves NaN, infinities and out-of-range values
    implementation-defined; on amd64 they give the minimum int64. *)
Definition to_int64 (f : float) : Z :=
  let z := trunc f in
  if is_finite f && (- 2 ^ 63 <=? z) && (z <? 2 ^ 63) then z else - 2 ^ 63.

End GoFloat.

(* ===================================================================== *)
(** ** src/unnamed/part_002: SafeRetry *)
(* ===================================================================== *)

Module Retry.

(** [fmt.Errorf("%s 失败：%v", actionName, last)]; [%v] of a nil error
    prints [<nil>]. *)
Definition fmt_v (e : option string) : string :=
  match e with None => "<nil>" | Some m => m end.

(** [err == nil] *)
Definition is_nil_opt (r : option string) : bool :=
  match r with None => true | Some _ => false end.

Definition Errorf (actionName : string) (last : option string) : string :=
  (actionName ++ " 失败：" ++ fmt_v last)%string.

(** [time.Duration(float64(baseSleep) * (1.0 + float64(i)*0.35))] *)
Definition backoff (baseSleep i : Z) : Z :=
  GoFloat.to_int64
    (GoFloat.of_Z baseSleep * (1.0 + GoFloat.of_Z i * 0.35))%float.

Section SafeRetry.
(** [S] is everything the wrapped closure and [time.Sleep] act on. *)
Context {S : Type}.
Variable Sleep : Z -> S -> S.
Variable actionName : string.
Variable baseSleep : Z.
Variable fn : S -> S * option string.

(** The loop [for i := 0; i < retries; i++ { ... }]; [k] is the number
    of iterations still to run, [i] the loop variable. *)
Fixpoint loop (k : nat) (i : Z) (last : option string) (s : S)
    : S * option string :=
  match k with
  | O => (s, Some (Errorf actionName last))
  | Datatypes.S k' =>
      let '(s1, r) := fn s in
      match r with
      | None => (s1, None)
      | Some err =>
          let s2 := Sleep (backoff baseSleep i) s1 in
          loop k' (i + 1) (Some err) s2
      end
  end.

Definition SafeRetry (retries : Z) (s : S) : S * option string :=
  let retries := if retries <? 1 then 1 else retries in
  loop (Z.to_nat retries) 0 None s.
End SafeRetry.

(** Ghost instrumentation: what the closure returned and how long the
    wrapper slept, appended to a log kept next to the state. *)
Inductive ev := EvCall (r : option string) | EvSleep (d : Z).

Definition obs_fn {S} (fn : S -> S * option string)
    (st : S * list ev) : (S * list ev) * option string :=
  let '(s, l) := st in
  let '(s', r) := fn s in ((s', l ++ [EvCall r]), r).

Definition obs_sleep {S} (Sleep : Z -> S -> S) (d : Z) (st : S * list ev)
    : S * list ev :=
  let '(s, l) := st in (Sleep d s, l ++ [EvSleep d]).

(** The log of one [SafeRetry] run from an empty log. *)
Definition run {S} (Sleep : Z -> S -> S) (actionName : string)
    (retries baseSleep : Z) (fn : S -> S * option string) (s : S)
    : list ev * option string :=
  let '((_, tr), res) :=
    SafeRetry (obs_sleep Sleep) actionName baseSleep (obs_fn fn) retries
      (s, []) in
  (tr, res).

End Retry.

(* ===================================================================== *)
(** ** src/internal/aws/quota.go *)
(* ===================================================================== *)

Module Quota.

Definition quotaCodeOnDemandStdVcpu : string := "L-1216C47A".
Definition quotaCodeSpotStdVcpu : string := "L-34B43A08".

(** [types.ServiceQuota] and [servicequotas.GetServiceQuotaOutput]: only
    the fields read by the code; pointers are options. *)
Record ServiceQuota := { QuotaName : option string; Value : option float }.
Record GetServiceQuotaOutput := { Quota : option ServiceQuota }.

(** A [*servicequotas.Client]: [GetServiceQuota] for a service code and a
    quota code answers with an output pointer and an error. *)
Definition Client := string -> string -> option GetServiceQuotaOutput * option string.

(** [aws.ToString] *)
Definition ToString (p : option string) : string :=
  match p with None => "" | Some v => v end.

(** Decimal digits of [n >= 0]; 19 rounds cover every int64. *)
Fixpoint dec_digits (fuel : nat) (n : Z) (acc : string) : string :=
  match fuel with
  | O => acc
  | Datatypes.S f =>
      let acc' := String (ascii_of_nat (48 + Z.to_nat (n mod 10))) acc in
      if n <? 10 then acc' else dec_digits f (n / 10) acc'
  end.

(** [strconv.FormatInt(v, 10)] *)
Definition FormatInt (v : Z) : string :=
  if v <? 0 then String "-" (dec_digits 19 (- v) EmptyString)
  else dec_digits 19 v EmptyString.

Section WithFormatFloat.
(** [strconv.FormatFloat(f, 'f', -1, 64)] (standard library; its
    digits are not modelled). *)
Variable FormatFloat : float -> string.

Definition floatPtrToString (v : option float) : string :=
  match v with
  | None => ""
  | Some f =>
      if PrimFloat.eqb f (GoFloat.of_Z (GoFloat.to_int64 f))
      then FormatInt (GoFloat.to_int64 f)
      else FormatFloat f
  end.

(** [fmt.Errorf("...：onDemandErr=%v; spotErr=%v", e1, e2)] *)
Definition quota_err (e1 e2 : option string) : string :=
  ("配额未返回（可能无权限/region不对/网络或代理问题）：onDemandErr="
     ++ Retry.fmt_v e1 ++ "; spotErr=" ++ Retry.fmt_v e2)%string.

(** The fields an output contributes when [e == nil && out != nil &&
    out.Quota != nil]: [(name, val)]. *)
Definition read_quota (r : option GetServiceQuotaOutput * option string)
    : option (string * string) :=
  match r with
  | (Some out, None) =>
      match Quota out with
      | Some q => Some (ToString (QuotaName q), floatPtrToString (Value q))
      | None => None
      end
  | _ => None
  end.

(** [TestVCPUQuotas]: [(onVal, spotVal, onName, spotName, err)]. *)
Definition TestVCPUQuotas (cli : option Client)
    : string * string * string * string * option string :=
  match cli with
  | None => ("", "", "", "", Some "servicequotas client is nil"%string)
  | Some c =>
      let r1 := c "ec2"%string quotaCodeOnDemandStdVcpu in
      let '(onName, onVal) :=
        match read_quota r1 with Some nv => nv | None => (""%string, ""%string) end in
      let r2 := c "ec2"%string quotaCodeSpotStdVcpu in
      let '(spotName, spotVal) :=
        match read_quota r2 with Some nv => nv | None => (""%string, ""%string) end in
      if String.eqb onVal "" && String.eqb spotVal "" then
        ("", "", "", "", Some (quota_err (snd r1) (snd r2)))
      else (onVal, spotVal, onName, spotName, None)
  end.
End WithFormatFloat.

End Quota.

(* ===================================================================== *)
(** ** src/internal/aws/lightsail.go *)
(* ===================================================================== *)

Module Lightsail.

(** [str(p)] *)
Definition str (p : option string) : string :=
  match p with None => "" | Some v => v end.

(** *** sanitize

    [sanitize] ranges over the runes of its argument, so its input is a
    rune list. [strings.ToLower] maps every rune through
    [unicode.ToLower], a Unicode table kept as a parameter. *)
Section Sanitize.
Variable ToLowerRune : Z -> Z.

Definition ToLower (s : list Z) : list Z := map ToLowerRune s.

Definition keep (r : Z) : bool :=
  ((97 <=? r) && (r <=? 122)) || ((48 <=? r) && (r <=? 57)) || (r =? 45).

(** [for _, r := range s { if keep(r) { b.WriteRune(r) } }] *)
Definition sanitize (s : list Z) : list Z :=
  let s := ToLower s in
  let out := fold_left (fun b r => if keep r then b ++ [r] else b) s [] in
  match out with [] => [120] | _ => out end.
End Sanitize.

(** The runes of an ASCII string literal. *)
Definition runes (s : string) : list Z :=
  map (fun a => Z.of_nat (nat_of_ascii a)) (list_ascii_of_string s).

(** [unicode.ToLower] on the ASCII range. *)
Definition ascii_lower (r : Z) : Z :=
  if (65 <=? r) && (r <=? 90) then r + 32 else r.

(** *** ListInstances *)

Record InstanceState := { st_Name : option string }.
Record ResourceLocation := { AvailabilityZone : option string }.

(** [types.Instance], the fields read; [CreatedAt] is kept already
    formatted as ["2006-01-02 15:04:05"]. *)
Record Instance := {
  ins_Name : option string;
  ins_State : option InstanceState;
  PublicIpAddress : option string;
  Ipv6Addresses : list string;
  Location : option ResourceLocation;
  BundleId : option string;
  CreatedAt : option string
}.

(** [types.StaticIp] *)
Record StaticIp := {
  si_Name : option string;
  AttachedTo : option string;
  IpAddress : option string;
  IsAttached : option bool
}.

Record InstanceView := {
  Name : string; State : string; PublicIPv4 : string; PublicIPv6 : string;
  StaticIPv4 : string; Zone : string; BundleID : string; Created : string
}.

(** The static-IP map: attached address per instance name. *)
Definition staticMap_of (sips : list StaticIp) : gmap string string :=
  fold_left (fun m si =>
    match AttachedTo si, IpAddress si with
    | Some at_, Some ip =>
        match IsAttached si with
        | None | Some true => <[at_ := ip]> m
        | Some false => m
        end
    | _, _ => m
    end) sips ∅.

(** One [InstanceView]; [None] when [ins.Location] is nil, where the Go
    code dereferences a nil pointer and panics. *)
Definition view_of (staticMap : gmap string string) (ins : Instance)
    : option InstanceView :=
  let name := str (ins_Name ins) in
  let state := match ins_State ins with
               | Some st => match st_Name st with Some n => n | None => "" end
               | None => "" end in
  let public6 := match Ipv6Addresses ins with a :: _ => a | [] => "" end in
  match Location ins with
  | None => None
  | Some loc =>
      Some {| Name := name; State := state;
              PublicIPv4 := str (PublicIpAddress ins); PublicIPv6 := public6;
              StaticIPv4 := match staticMap !! name with Some v => v | None => "" end;
              Zone := str (AvailabilityZone loc); BundleID := str (BundleId ins);
              Created := match CreatedAt ins with Some c => c | None => "" end |}
  end.

Fixpoint views_of (staticMap : gmap string string) (l : list Instance)
    : option (list InstanceView) :=
  match l with
  | [] => Some []
  | ins :: l' =>
      match view_of staticMap ins, views_of staticMap l' with
      | Some v, Some vs => Some (v :: vs)
      | _, _ => None
      end
  end.

(** [ListInstances] given the answers of [GetInstances] and
    [GetStaticIps] (an output pointer and an error each). [None] is a
    nil-pointer panic. *)
Definition ListInstances
    (gi : option (list Instance) * option string)
    (gs : option (list StaticIp) * option string)
    : option (list InstanceView * option string) :=
  match gi with
  | (_, Some err) => Some ([], Some ("拉取实例失败：" ++ err)%string)
  | (None, None) => None
  | (Some insts, None) =>
      let '(sipOut, _) := gs in
      let staticMap := match sipOut with Some l => staticMap_of l | None => ∅ end in
      match views_of staticMap insts with
      | Some vs => Some (vs, None)
      | None => None
      end
  end.

End Lightsail.

(* ===================================================================== *)
(** ** src/internal/aws/lightsail.go: static-IP cleanup and deletion *)
(* ===================================================================== *)

Module LightsailCalls.
Import Lightsail.

(** The Lightsail requests these functions issue, as logged. *)
Inductive req :=
| RGetStaticIps
| RGetStaticIp (staticIpName : string)
| RDetachStaticIp (staticIpName : string)
| RReleaseStaticIp (staticIpName : string)
| RDeleteInstance (instanceName : string).

Definition sec : Z := 1000000000.

(** A deadline loop that sleeps 2 s per round runs at most
    [timeout / 2s + 1] rounds: the fuel of the loops below. *)
Definition rounds (timeout : Z) : nat := Z.to_nat (timeout / (2 * sec)) + 1.

Section Calls.
(** [E] is the state of the AWS account; each operation of the
    [LightsailAPI] client is a function of it. *)
Context {E : Type}.
Variable GetStaticIps : E -> E * (option (list StaticIp) * option string).
(** [out] is [Some (out.StaticIp)] for a non-nil output. *)
Variable GetStaticIp : string -> E -> E * (option (option StaticIp) * option string).
Variable DetachStaticIp : string -> E -> E * option string.
Variable ReleaseStaticIp : string -> E -> E * option string.
Variable DeleteInstance : string -> E -> E * option string.

(** The world: the account, the clock ([time.Now()]) and the log of
    requests sent. *)
Record world := { env : E; clock : Z; log : list req }.

Definition call {A} (r : req) (f : E -> E * A) (w : world) : world * A :=
  let '(e', out) := f (env w) in
  ({| env := e'; clock := clock w; log := log w ++ [r] |}, out).

(** [time.Sleep(d)]; a negative duration returns at once. *)
Definition Sleep (d : Z) (w : world) : world :=
  {| env := env w; clock := clock w + Z.max 0 d; log := log w |}.

Fixpoint find_attached (instanceName : string) (sips : list StaticIp)
    : string * string :=
  match sips with
  | [] => (""%string, ""%string)
  | si :: rest =>
      match AttachedTo si, IsAttached si with
      | Some at_, (None | Some true) =>
          if String.eqb at_ instanceName then (str (si_Name si), str (IpAddress si))
          else find_attached instanceName rest
      | _, _ => find_attached instanceName rest
      end
  end.

Definition FindAttachedStaticIPName (instanceName : string) (w : world)
    : world * (string * string) :=
  let '(w1, (out, err)) := call RGetStaticIps GetStaticIps w in
  match err, out with
  | None, Some sips => (w1, find_attached instanceName sips)
  | _, _ => (w1, (""%string, ""%string))
  end.

(** The polling loop of [WaitStaticIPDetached]. *)
Fixpoint wait_detached (fuel : nat) (name : string) (deadline : Z) (w : world)
    : world * bool :=
  match fuel with
  | O => (w, false)
  | Datatypes.S f =>
      if clock w <? deadline then
        let '(w1, (out, err)) := call (RGetStaticIp name) (GetStaticIp name) w in
        match err, out with
        | None, Some (Some sip) =>
            match IsAttached sip with
            | Some false => (w1, true)
            | _ =>
                match AttachedTo sip with
                | None => (w1, true)
                | Some at_ =>
                    if String.eqb at_ "" then (w1, true)
                    else wait_detached f name deadline (Sleep (2 * sec) w1)
                end
            end
        | _, _ => (w1, true)
        end
      else (w, false)
  end.

Definition WaitStaticIPDetached (name : string) (timeout : Z) (w : world)
    : world * bool :=
  wait_detached (rounds timeout) name (clock w + timeout) w.

(** The "wait deleted" loop: [GetStaticIp] failing means released. *)
Fixpoint wait_released (fuel : nat) (name : string) (deadline : Z) (w : world)
    : world * bool :=
  match fuel with
  | O => (w, false)
  | Datatypes.S f =>
      if clock w <? deadline then
        let '(w1, (_, err)) := call (RGetStaticIp name) (GetStaticIp name) w in
        match err with
        | Some _ => (w1, true)
        | None => wait_released f name deadline (Sleep (2 * sec) w1)
        end
      else (w, false)
  end.

Definition DeletePreviousStaticIPOnlyForInstance (instanceName : string)
    (w : world) : world * (string * option string) :=
  let '(w1, (oldName, _)) := FindAttachedStaticIPName instanceName w in
  if String.eqb oldName "" then (w1, (""%string, None)) else
  let '(w2, r) := Retry.SafeRetry Sleep "解绑旧静态IP" (1200 * 1000000)
                    (call (RDetachStaticIp oldName) (DetachStaticIp oldName)) 8 w1 in
  match r with
  | Some err => (w2, (""%string, Some err))
  | None =>
      let '(w3, ok) := WaitStaticIPDetached oldName (120 * sec) w2 in
      if negb ok then (w3, (""%string, Some ("旧静态IP解绑超时：" ++ oldName)%string)) else
      let '(w4, r2) := Retry.SafeRetry Sleep "释放旧静态IP" (1300 * 1000000)
                         (call (RReleaseStaticIp oldName) (ReleaseStaticIp oldName)) 12 w3 in
      match r2 with
      | Some err => (w4, (""%string, Some err))
      | None =>
          let '(w5, gone) := wait_released (rounds (90 * sec)) oldName
                               (clock w4 + 90 * sec) w4 in
          if gone then (w5, (oldName, None))
          else (w5, (""%string, Some ("旧静态IP仍存在（释放未生效）：" ++ oldName)%string))
      end
  end.

Definition DeleteInstanceWithStaticIPCleanup (name : string) (w : world)
    : world * option string :=
  let '(w1, _) := DeletePreviousStaticIPOnlyForInstance name w in
  Retry.SafeRetry Sleep "删除实例" (1200 * 1000000)
    (call (RDeleteInstance name) (DeleteInstance name)) 8 w1.
End Calls.

End LightsailCalls.

(* ===================================================================== *)
(** ** Go's [strings.TrimSpace] (with [unicode/utf8] and [unicode.IsSpace]) *)
(* ===================================================================== *)

Module GoStrings.

(** The bytes of a Go string, and the string of a byte slice. *)
Definition bytes (s : string) : list Z :=
  map (fun a => Z.of_nat (nat_of_ascii a)) (list_ascii_of_string s).

Definition of_bytes (l : list Z) : string :=
  string_of_list_ascii (map (fun b => ascii_of_nat (Z.to_nat b)) l).

Definition RuneError : Z := 65533.
Definition RuneSelf : Z := 128.
Definition UTFMax : nat := 4.

Definition cont (b : Z) : bool := (128 <=? b) && (b <=? 191).

(** The accepted second byte of a 3- and a 4-byte sequence. *)
Definition valid3 (b0 b1 : Z) : bool :=
  if b0 =? 224 then (160 <=? b1) && (b1 <=? 191)
  else if b0 =? 237 then (128 <=? b1) && (b1 <=? 159)
  else cont b1.

Definition valid4 (b0 b1 : Z) : bool :=
  if b0 =? 240 then (144 <=? b1) && (b1 <=? 191)
  else if b0 =? 244 then (128 <=? b1) && (b1 <=? 143)
  else cont b1.

(** [utf8.DecodeRuneInString(s)]: the first rune and its width; an empty
    string gives [(RuneError, 0)], an invalid or truncated sequence
    [(RuneError, 1)]. *)
Definition DecodeRuneInString (s : list Z) : Z * nat :=
  match s with
  | [] => (RuneError, 0%nat)
  | b0 :: t =>
      if b0 <? RuneSelf then (b0, 1%nat) else
      if (194 <=? b0) && (b0 <=? 223) then
        match t with
        | b1 :: _ =>
            if cont b1 then ((b0 - 192) * 64 + (b1 - 128), 2%nat) else (RuneError, 1%nat)
        | [] => (RuneError, 1%nat)
        end else
      if (224 <=? b0) && (b0 <=? 239) then
        match t with
        | b1 :: b2 :: _ =>
            if valid3 b0 b1 && cont b2
            then ((b0 - 224) * 4096 + (b1 - 128) * 64 + (b2 - 128), 3%nat)
            else (RuneError, 1%nat)
        | _ => (RuneError, 1%nat)
        end else
      if (240 <=? b0) && (b0 <=? 244) then
        match t with
        | b1 :: b2 :: b3 :: _ =>
            if valid4 b0 b1 && cont b2 && cont b3
            then ((b0 - 240) * 262144 + (b1 - 128) * 4096 + (b2 - 128) * 64 + (b3 - 128),
                  4%nat)
            else (RuneError, 1%nat)
        | _ => (RuneError, 1%nat)
        end
      else (RuneError, 1%nat)
  end.

(** [utf8.RuneStart(b)]: [b] is not a continuation byte. *)
Definition RuneStart (b : Z) : bool := negb (Z.land b 192 =? 128).

(** The loop [for start--; start >= lim; start-- { if RuneStart(s[start])
    { break } }] of [DecodeLastRuneInString]; it stops within [UTFMax]
    steps since [lim >= end - UTFMax]. *)
Fixpoint back_start (fuel : nat) (start lim : Z) (s : list Z) : Z :=
  match fuel with
  | O => start
  | S f =>
      if start <? lim then start
      else if RuneStart (nth (Z.to_nat start) s 0) then start
      else back_start f (start - 1) lim s
  end.

(** [utf8.DecodeLastRuneInString(s)]: the last rune and its width. *)
Definition DecodeLastRuneInString (s : list Z) : Z * nat :=
  let end_ := Z.of_nat (length s) in
  if end_ =? 0 then (RuneError, 0%nat) else
  let r := nth (Z.to_nat (end_ - 1)) s 0 in
  if r <? RuneSelf then (r, 1%nat) else
  let lim := Z.max 0 (end_ - Z.of_nat UTFMax) in
  let start := Z.max 0 (back_start UTFMax (end_ - 2) lim s) in
  let '(r, size) := DecodeRuneInString (skipn (Z.to_nat start) s) in
  if negb (start + Z.of_nat size =? end_) then (RuneError, 1%nat) else (r, size).

(** [unicode.IsSpace(r)]: the Latin-1 spaces, then the rest of Unicode's
    [White_Space] table. *)
Definition IsSpace (r : Z) : bool :=
  if r <=? 255 then
    (r =? 9) || (r =? 10) || (r =? 11) || (r =? 12) || (r =? 13) || (r =? 32)
    || (r =? 133) || (r =? 160)
  else
    (r =? 5760) || ((8192 <=? r) && (r <=? 8202)) || (r =? 8232) || (r =? 8233)
    || (r =? 8239) || (r =? 8287) || (r =? 12288).

(** [strings.TrimLeftFunc(s, unicode.IsSpace)]: drop the runes of
    [for _, r := range s] while they are spaces. *)
Fixpoint TrimLeftSpace (fuel : nat) (s : list Z) : list Z :=
  match fuel with
  | O => s
  | S f =>
      match s with
      | [] => []
      | _ => let '(r, size) := DecodeRuneInString s in
             if IsSpace r then TrimLeftSpace f (skipn size s) else s
      end
  end.

(** [lastIndexFunc(s, unicode.IsSpace, false)] over [s[0:i]]: the start of
    the last rune that is not a space, or -1. *)
Fixpoint lastIndexNonSpace (fuel : nat) (i : nat) (s : list Z) : Z :=
  match fuel with
  | O => -1
  | S f =>
      match i with
      | O => -1
      | _ => let '(r, size) := DecodeLastRuneInString (firstn i s) in
             let i := (i - size)%nat in
             if negb (IsSpace r) then Z.of_nat i else lastIndexNonSpace f i s
      end
  end.

(** [strings.TrimRightFunc(s, unicode.IsSpace)]. *)
Definition TrimRightSpace (s : list Z) : list Z :=
  let i := lastIndexNonSpace (length s) (length s) s in
  if (0 <=? i) && (RuneSelf <=? nth (Z.to_nat i) s 0) then
    firstn (Z.to_nat i + snd (DecodeRuneInString (skipn (Z.to_nat i) s))) s
  else firstn (Z.to_nat (i + 1)) s.

(** [asciiSpace]: tab, LF, VT, FF, CR and space. *)
Definition asciiSpace (c : Z) : bool :=
  (c =? 9) || (c =? 10) || (c =? 11) || (c =? 12) || (c =? 13) || (c =? 32).

(** The ASCII fast path of [TrimSpace] from the front: [inl s[start:]]
    when it meets a non-ASCII byte, [inr s[start:]] when it stops on an
    ASCII non-space byte or the end. Run on the reversed bytes it is the
    scan from the back. *)
Fixpoint fast_trim (s : list Z) : list Z + list Z :=
  match s with
  | [] => inr []
  | c :: t =>
      if RuneSelf <=? c then inl s
      else if asciiSpace c then fast_trim t else inr s
  end.

(** [strings.TrimSpace(s)]: the ASCII fast path, falling back to
    [TrimFunc(s[start:], unicode.IsSpace)] (that is [TrimRightFunc] of
    [TrimLeftFunc]) or to [TrimRightFunc(s[start:stop], unicode.IsSpace)]
    at the first non-ASCII byte. *)
Definition TrimSpace (s : string) : string :=
  of_bytes
    match fast_trim (bytes s) with
    | inl rest => TrimRightSpace (TrimLeftSpace (length rest) rest)
    | inr rest =>
        match fast_trim (rev rest) with
        | inl rs => TrimRightSpace (rev rs)
        | inr rs => rev rs
        end
    end.

End GoStrings.

(* ===================================================================== *)
(** ** src/internal/store/db.go *)
(* ===================================================================== *)

Module Store.

(** Rows of the [users] and [api_keys] tables. *)
Record User := { u_id : Z; u_username : string; u_password_hash : string }.

Record Key := {
  k_id : Z; k_user_id : Z; k_name : string; k_access_key : string;
  k_secret_key : string; k_proxy : string; k_created_at : string
}.

(** The database: both tables in rowid order and the AUTOINCREMENT
    counters. *)
Record DB := {
  users : list User; users_seq : Z;
  api_keys : list Key; api_keys_seq : Z
}.

(** [strings.TrimSpace]. *)
Definition TrimSpace (s : string) : string := GoStrings.TrimSpace s.

(** The calls to [database/sql] whose error the code checks, other than
    [sql.ErrNoRows] and constraint violations, which follow from the
    tables. A [fault : sql_call -> option string] gives the driver's
    error for each call of one run (for example ["database is locked"]),
    [None] when it succeeds. [EnsureUser], [AuthenticateUser] and
    [CreateKey] take one; [ListKeys], [DeleteKey] and [UpdateKey] are
    modelled on the runs where their statements succeed. *)
Inductive sql_call :=
| PrepareSelectUser | ScanSelectUser | PrepareInsertUser | ExecInsertUser
| PrepareAuthUser | ScanAuthUser
| BeginTx | PrepareInsertKey | ExecInsertKey | ScanLastInsertRowid | CommitTx.

(** The error of the first call of [cs] that fails. *)
Fixpoint first_fault (fault : sql_call -> option string) (cs : list sql_call)
    : option string :=
  match cs with
  | [] => None
  | c :: cs' => match fault c with Some e => Some e | None => first_fault fault cs' end
  end.

(** [SELECT id FROM users WHERE username = ? LIMIT 1] *)
Definition select_user (db : DB) (username : string) : option User :=
  List.find (fun u => String.eqb (u_username u) username) (users db).

(** [INSERT INTO users (username, password_hash) VALUES (?, ?)], with the
    [UNIQUE] constraint on [username]. *)
Definition insert_user (db : DB) (username hash : string) : DB * option string :=
  match select_user db username with
  | Some _ => (db, Some "UNIQUE constraint failed: users.username"%string)
  | None =>
      let id := users_seq db + 1 in
      ({| users := users db ++ [{| u_id := id; u_username := username;
                                   u_password_hash := hash |}];
          users_seq := id; api_keys := api_keys db; api_keys_seq := api_keys_seq db |},
       None)
  end.

Section EnsureUser.
(** [bcrypt.GenerateFromPassword(password, bcrypt.DefaultCost)]:
    an error ([inl]) or a hash ([inr]). *)
Variable GenerateFromPassword : string -> string + string.
Variable fault : sql_call -> option string.

(** [EnsureUser(username, password)]: [(created, err)]. *)
Definition EnsureUser (username password : string) (db : DB)
    : DB * (bool * option string) :=
  let username := TrimSpace username in
  let password := TrimSpace password in
  if String.eqb username "" || String.eqb password "" then
    (db, (false, Some "username/password required"%string))
  else
    match fault PrepareSelectUser with
    | Some err => (db, (false, Some err))
    | None =>
    match fault ScanSelectUser with
    | Some err => (db, (false, Some err))
    | None =>
    match select_user db username with
    | Some _ => (db, (false, None))
    | None =>
        match GenerateFromPassword password with
        | inl err => (db, (false, Some err))
        | inr hash =>
            match fault PrepareInsertUser with
            | Some err => (db, (false, Some err))
            | None =>
            match fault ExecInsertUser with
            | Some err => (db, (false, Some err))
            | None =>
            let '(db', err) := insert_user db username hash in
            match err with
            | Some e => (db', (false, Some e))
            | None => (db', (true, None))
            end
            end
            end
        end
    end
    end
    end.
End EnsureUser.

(** [ORDER BY id DESC]: insertion into a list sorted by decreasing id. *)
Fixpoint insert_desc (k : Key) (l : list Key) : list Key :=
  match l with
  | [] => [k]
  | h :: t => if k_id h <? k_id k then k :: l else h :: insert_desc k t
  end.

Definition sort_desc (l : list Key) : list Key := fold_right insert_desc [] l.

(** [ListKeys(userID)]: [SELECT ... FROM api_keys WHERE user_id = ?
    ORDER BY id DESC]; [CreatedAt] is kept as the stored text. *)
Definition ListKeys (userID : Z) (db : DB) : list Key * option string :=
  (sort_desc (List.filter (fun k => k_user_id k =? userID) (api_keys db)), None).

(** [DeleteKey(userID, keyID)]:
    [DELETE FROM api_keys WHERE id = ? AND user_id = ?]. *)
Definition DeleteKey (userID keyID : Z) (db : DB) : DB * option string :=
  if keyID =? 0 then (db, None) else
  ({| users := users db; users_seq := users_seq db;
      api_keys := List.filter (fun k => negb ((k_id k =? keyID) && (k_user_id k =? userID)))
                    (api_keys db);
      api_keys_seq := api_keys_seq db |}, None).

(** [UpdateKey(userID, keyID, name, accessKey, secretKey, proxy)]; [now]
    is [time.Now().Format("2006-01-02 15:04")]. *)
Definition UpdateKey (now : string) (userID keyID : Z)
    (name accessKey secretKey proxy : string) (db : DB) : DB * option string :=
  if keyID =? 0 then (db, Some "missing key id"%string) else
  if String.eqb (TrimSpace accessKey) "" || String.eqb (TrimSpace secretKey) "" then
    (db, Some "missing key values"%string) else
  let name := if String.eqb (TrimSpace name) "" then now else name in
  ({| users := users db; users_seq := users_seq db;
      api_keys := map (fun k =>
        if (k_id k =? keyID) && (k_user_id k =? userID)
        then {| k_id := k_id k; k_user_id := k_user_id k; k_name := name;
                k_access_key := accessKey; k_secret_key := secretKey;
                k_proxy := proxy; k_created_at := k_created_at k |}
        else k) (api_keys db);
      api_keys_seq := api_keys_seq db |}, None).

End Store.

(* ===================================================================== *)
(** ** src/internal/session/session.go *)
(* ===================================================================== *)

Module Session.

Definition minute : Z := 60 * LightsailCalls.sec.

(** A [*Session]. The store's map holds the only pointer the model
    follows: handlers reach a session through its id, so updating the
    map entry is updating the shared object. *)
Record Session := { sm : gmap string string; lastAccess : Z }.

Record Store := { m : gmap string Session; ttl : Z; cleanupInterval : Z }.

(** [NewStore()]; the ticker goroutine it starts runs [cleanupExpired]. *)
Definition NewStore : Store :=
  {| m := ∅; ttl := 30 * minute; cleanupInterval := 5 * minute |}.

Definition touch (now : Z) (s : Session) : Session :=
  {| sm := sm s; lastAccess := now |}.

(** [GetOrCreate(id)] at time [now]. *)
Definition GetOrCreate (now : Z) (id : string) (st : Store) : Store * Session :=
  match m st !! id with
  | Some s =>
      let s' := touch now s in
      ({| m := <[id := s']> (m st); ttl := ttl st; cleanupInterval := cleanupInterval st |}, s')
  | None =>
      let s := {| sm := ∅; lastAccess := now |} in
      ({| m := <[id := s]> (m st); ttl := ttl st; cleanupInterval := cleanupInterval st |}, s)
  end.

(** [SetString(key, val)] on the session [id] at time [now]. *)
Definition SetString (now : Z) (id key val : string) (st : Store) : Store :=
  match m st !! id with
  | Some s =>
      {| m := <[id := {| sm := <[key := val]> (sm s); lastAccess := now |}]> (m st);
         ttl := ttl st; cleanupInterval := cleanupInterval st |}
  | None => st
  end.

(** [GetString(key, def)] on the session [id]: reads, then touches. *)
Definition GetString (now : Z) (id key def : string) (st : Store) : Store * string :=
  match m st !! id with
  | Some s =>
      ({| m := <[id := touch now s]> (m st); ttl := ttl st;
          cleanupInterval := cleanupInterval st |},
       match sm s !! key with Some v => v | None => def end)
  | None => (st, def)
  end.

(** [cleanupExpired()] at time [now]: one pass over the map, deleting the
    visited entry when [sess.LastAccess().Before(expiredBefore)]. *)
Definition cleanupExpired (now : Z) (st : Store) : Store :=
  let expiredBefore := now - ttl st in
  {| m := map_fold (fun id sess acc =>
                      if lastAccess sess <? expiredBefore then delete id acc else acc)
            (m st) (m st);
     ttl := ttl st; cleanupInterval := cleanupInterval st |}.

(** The stores the program can be in: built by [NewStore], then changed
    by requests and by sweeps. *)
Inductive reachable : Store -> Prop :=
| reach_new : reachable NewStore
| reach_get now id st : reachable st -> reachable (fst (GetOrCreate now id st))
| reach_set now id key val st : reachable st -> reachable (SetString now id key val st)
| reach_read now id key def st : reachable st -> reachable (fst (GetString now id key def st))
| reach_clean now st : reachable st -> reachable (cleanupExpired now st).

End Session.

(* ===================================================================== *)
(** ** src/internal/store/db.go: login and key creation *)
(* ===================================================================== *)

Module StoreOps.
Import Store.

Section Auth.
(** [bcrypt.CompareHashAndPassword(hash, password) == nil]. *)
Variable CompareHashAndPassword : string -> string -> bool.
Variable fault : sql_call -> option string.

(** [AuthenticateUser(username, password)]. *)
Definition AuthenticateUser (username password : string) (db : DB)
    : option User * option string :=
  let username := TrimSpace username in
  let password := TrimSpace password in
  if String.eqb username "" || String.eqb password "" then
    (None, Some "missing credentials"%string)
  else
    match fault PrepareAuthUser with
    | Some err => (None, Some err)
    | None =>
    match fault ScanAuthUser with
    | Some err => (None, Some err)
    | None =>
    match select_user db username with
    | None => (None, Some "user not found"%string)
    | Some u =>
        if negb (CompareHashAndPassword (u_password_hash u) password)
        then (None, Some "invalid password"%string)
        else (Some u, None)
    end
    end
    end.
End Auth.

(** [CreateKey(userID, name, accessKey, secretKey, proxy)]: [now] is
    [time.Now().Format("2006-01-02 15:04")], [ts] the text SQLite stores
    for [CURRENT_TIMESTAMP]. The row gets the next AUTOINCREMENT id,
    which [last_insert_rowid()] returns. The calls run in one
    transaction: when one fails, the deferred [tx.Rollback()] leaves the
    tables as they were. *)
Definition create_key_calls : list sql_call :=
  [BeginTx; PrepareInsertKey; ExecInsertKey; ScanLastInsertRowid; CommitTx].

Definition CreateKey (fault : sql_call -> option string) (now ts : string) (userID : Z)
    (name accessKey secretKey proxy : string) (db : DB) : DB * (Z * option string) :=
  if String.eqb (TrimSpace accessKey) "" || String.eqb (TrimSpace secretKey) "" then
    (db, (0, Some "missing key values"%string)) else
  let name := if String.eqb (TrimSpace name) "" then now else name in
  match first_fault fault create_key_calls with
  | Some err => (db, (0, Some err))
  | None =>
      let id := api_keys_seq db + 1 in
      ({| users := users db; users_seq := users_seq db;
          api_keys := api_keys db ++ [{| k_id := id; k_user_id := userID; k_name := name;
                                         k_access_key := accessKey; k_secret_key := secretKey;
                                         k_proxy := proxy; k_created_at := ts |}];
          api_keys_seq := id |}, (id, None))
  end.

End StoreOps.

(* ===================================================================== *)
(** ** src/internal/aws/lightsail.go: creation, reboot, ports, static-IP swap *)
(* ===================================================================== *)

Module LightsailOps.
Import Lightsail LightsailCalls.

(** [lightsail.CreateInstancesInput], the fields set. *)
Record CreateInstancesInput := {
  ci_InstanceNames : list string; ci_AvailabilityZone : string;
  ci_BlueprintId : string; ci_BundleId : string; ci_UserData : string;
  ci_IpAddressType : string
}.

(** [types.PortInfo] *)
Record PortInfo := { FromPort : Z; ToPort : Z; Protocol : string }.

(** [CreateInstanceInput] *)
Record CreateInstanceInput := {
  InstanceName : string; in_AvailabilityZone : string; BlueprintID : string;
  in_BundleID : string; UserData : string; IPAddressType : string;
  EnableFWAll : bool
}.

(** The requests of these functions, as logged; [Cleanup r] is a request
    [r] sent by [DeletePreviousStaticIPOnlyForInstance]. *)
Inductive areq :=
| Cleanup (r : req)
| RGetInstances
| RCreateInstances (input : CreateInstancesInput)
| ROpenInstancePublicPorts (instanceName : string) (portInfo : PortInfo)
| RRebootInstance (instanceName : string)
| RAllocateStaticIp (staticIpName : string)
| RAttachStaticIp (staticIpName instanceName : string).

(** The port range of [OpenAllPorts] and of [CreateInstance]:
    [FromPort: 0, ToPort: 65535, Protocol: types.NetworkProtocolAll]. *)
Definition allPorts : PortInfo := {| FromPort := 0; ToPort := 65535; Protocol := "all" |}.

(** [utf8.DecodeRuneInString] as [for _, r := range s] applies it: an
    invalid or truncated sequence gives [utf8.RuneError] and advances one
    byte. *)
Definition RuneError : Z := 65533.

Definition cont (b : Z) : bool := (128 <=? b) && (b <=? 191).

Definition valid3 (b0 b1 : Z) : bool :=
  if b0 =? 224 then (160 <=? b1) && (b1 <=? 191)
  else if b0 =? 237 then (128 <=? b1) && (b1 <=? 159)
  else (225 <=? b0) && (b0 <=? 239) && cont b1.

Definition valid4 (b0 b1 : Z) : bool :=
  if b0 =? 240 then (144 <=? b1) && (b1 <=? 191)
  else if b0 =? 244 then (128 <=? b1) && (b1 <=? 143)
  else (241 <=? b0) && (b0 <=? 243) && cont b1.

Fixpoint utf8_decode (l : list Z) : list Z :=
  match l with
  | [] => []
  | b0 :: t =>
      if b0 <? 128 then b0 :: utf8_decode t else
      match t with
      | [] => RuneError :: utf8_decode t
      | b1 :: t1 =>
          if (194 <=? b0) && (b0 <=? 223) && cont b1 then
            ((b0 - 192) * 64 + (b1 - 128)) :: utf8_decode t1 else
          match t1 with
          | [] => RuneError :: utf8_decode t
          | b2 :: t2 =>
              if valid3 b0 b1 && cont b2 then
                ((b0 - 224) * 4096 + (b1 - 128) * 64 + (b2 - 128)) :: utf8_decode t2 else
              match t2 with
              | [] => RuneError :: utf8_decode t
              | b3 :: t3 =>
                  if valid4 b0 b1 && cont b2 && cont b3 then
                    ((b0 - 240) * 262144 + (b1 - 128) * 4096 + (b2 - 128) * 64
                     + (b3 - 128)) :: utf8_decode t3
                  else RuneError :: utf8_decode t
              end
          end
      end
  end.

(** The bytes of a Go string. *)
Definition bytes (s : string) : list Z :=
  map (fun a => Z.of_nat (nat_of_ascii a)) (list_ascii_of_string s).

(** [b.WriteRune(r)] for the runes [sanitize] keeps, all ASCII: one byte
    each. *)
Definition ascii_string (rs : list Z) : string :=
  string_of_list_ascii (map (fun r => ascii_of_nat (Z.to_nat r)) rs).

Section Ops.
Context {E : Type}.
Variable GetStaticIps : E -> E * (option (list StaticIp) * option string).
Variable GetStaticIp : string -> E -> E * (option (option StaticIp) * option string).
Variable DetachStaticIp : string -> E -> E * option string.
Variable ReleaseStaticIp : string -> E -> E * option string.
Variable GetInstances : E -> E * (option (list Instance) * option string).
Variable CreateInstances : CreateInstancesInput -> E -> E * option string.
Variable OpenInstancePublicPorts : string -> PortInfo -> E -> E * option string.
Variable cli_RebootInstance : string -> E -> E * option string.
Variable AllocateStaticIp : string -> E -> E * option string.
Variable AttachStaticIp : string -> string -> E -> E * option string.
(** [unicode.ToLower], as in [sanitize]. *)
Variable ToLowerRune : Z -> Z.

Record aworld := { aenv : E; aclock : Z; alog : list areq }.

Definition acall {A} (r : areq) (f : E -> E * A) (w : aworld) : aworld * A :=
  let '(e', out) := f (aenv w) in
  ({| aenv := e'; aclock := aclock w; alog := alog w ++ [r] |}, out).

Definition aSleep (d : Z) (w : aworld) : aworld :=
  {| aenv := aenv w; aclock := aclock w + Z.max 0 d; alog := alog w |}.

(** [DeletePreviousStaticIPOnlyForInstance] run on this world: its
    requests are appended, in order, as [Cleanup] entries. *)
Definition cleanup (instanceName : string) (w : aworld)
    : aworld * (string * option string) :=
  let '(w', res) := DeletePreviousStaticIPOnlyForInstance GetStaticIps GetStaticIp
                      DetachStaticIp ReleaseStaticIp instanceName
                      {| env := aenv w; clock := aclock w; log := [] |} in
  ({| aenv := env w'; aclock := clock w'; alog := alog w ++ map Cleanup (log w') |}, res).

Definition CreateInstance (input : CreateInstanceInput) (w : aworld)
    : aworld * option string :=
  let ipType := if String.eqb (IPAddressType input) "" then "dualstack"%string
                else IPAddressType input in
  let ci := {| ci_InstanceNames := [InstanceName input];
               ci_AvailabilityZone := in_AvailabilityZone input;
               ci_BlueprintId := BlueprintID input; ci_BundleId := in_BundleID input;
               ci_UserData := UserData input; ci_IpAddressType := ipType |} in
  let '(w1, err) := acall (RCreateInstances ci) (CreateInstances ci) w in
  match err with
  | Some e => (w1, Some ("创建实例失败：" ++ e)%string)
  | None =>
      if EnableFWAll input then
        let w2 := aSleep (4 * sec) w1 in
        let '(w3, err) := acall (ROpenInstancePublicPorts (InstanceName input) allPorts)
                            (OpenInstancePublicPorts (InstanceName input) allPorts) w2 in
        match err with
        | Some e => (w3, Some ("已创建，但开启全端口失败：" ++ e)%string)
        | None => (w3, None)
        end
      else (w1, None)
  end.

Definition RebootInstance (name : string) (w : aworld) : aworld * option string :=
  Retry.SafeRetry aSleep "重启实例" (1200 * 1000000)
    (acall (RRebootInstance name) (cli_RebootInstance name)) 6 w.

Definition OpenAllPorts (instanceName : string) (w : aworld) : aworld * option string :=
  Retry.SafeRetry aSleep "开放全端口" (1200 * 1000000)
    (acall (ROpenInstancePublicPorts instanceName allPorts)
       (OpenInstancePublicPorts instanceName allPorts)) 6 w.

(** [fmt.Sprintf("sip-%s-%d", sanitize(instanceName), time.Now().Unix())] *)
Definition newStaticIpName (instanceName : string) (now : Z) : string :=
  ("sip-" ++ ascii_string (sanitize ToLowerRune (utf8_decode (bytes instanceName)))
   ++ "-" ++ Quota.FormatInt (now / sec))%string.

Definition SwapStaticIPForInstance (instanceName : string) (w : aworld)
    : aworld * option string :=
  let '(w1, (insOut, err)) := acall RGetInstances GetInstances w in
  let ipv6_only :=
    match err, insOut with
    | None, Some insts =>
        match List.find (fun ins => String.eqb (str (ins_Name ins)) instanceName) insts with
        | Some ins => String.eqb (str (PublicIpAddress ins)) ""
        | None => false
        end
    | _, _ => false
    end in
  if ipv6_only then
    (w1, Some "该实例无公网 IPv4（可能是 IPv6-only），无法换静态IP"%string) else
  let '(w2, _) := cleanup instanceName w1 in
  let newName := newStaticIpName instanceName (aclock w2) in
  let '(w3, r) := Retry.SafeRetry aSleep "申请新静态IP" (1200 * 1000000)
                    (acall (RAllocateStaticIp newName) (AllocateStaticIp newName)) 8 w2 in
  match r with
  | Some e => (w3, Some e)
  | None =>
      let '(w4, r2) := Retry.SafeRetry aSleep "绑定新静态IP" (1200 * 1000000)
                         (acall (RAttachStaticIp newName instanceName)
                            (AttachStaticIp newName instanceName)) 8 w3 in
      match r2 with
      | Some e => (w4, Some e)
      | None => (w4, None)
      end
  end.
End Ops.

End LightsailOps.

(* ===================================================================== *)
(** ** src/internal/session/session.go (package aws): CheckProxyExitIP *)
(* ===================================================================== *)

Module Proxy.
Import Store.

(** [ipinfoResp] *)
Record ipinfoResp := {
  IP : string; Org : string; City : string; Region : string; Country : string
}.

(** What [hc.Do(req)] gives: an error, or a response whose status code
    and JSON-decoded body (a decode error or the value) are read. *)
Inductive http_result :=
| DoError (err : string)
| Response (statusCode : Z) (body : string + ipinfoResp).

(** [CheckProxyExitIP(ctx, proxy)]: [(ip, asText, err)].
    [baseHTTPClient] is defined outside the sources; only its error is
    used here. *)
Definition CheckProxyExitIP (baseHTTPClient : string -> option string)
    (Do : http_result) (proxy : string) : string * string * option string :=
  match baseHTTPClient (TrimSpace proxy) with
  | Some err => (""%string, ""%string, Some err)
  | None =>
      match Do with
      | DoError err => (""%string, ""%string, Some ("ipinfo request error: " ++ err)%string)
      | Response status body =>
          if negb (status =? 200) then
            (""%string, ""%string,
             Some ("ipinfo http status: " ++ Quota.FormatInt status)%string)
          else
            match body with
            | inl err => (""%string, ""%string, Some ("ipinfo decode error: " ++ err)%string)
            | inr j =>
                let ip := TrimSpace (IP j) in
                let asText := TrimSpace (Org j) in
                if String.eqb ip "" then
                  (""%string, ""%string, Some "ipinfo returned empty ip"%string)
                else (ip, (if String.eqb asText "" then "N/A"%string else asText), None)
            end
      end
  end.

End Proxy.

(* ===================================================================== *)
(** * Proofs *)
(* ===================================================================== *)

(* ===================================================================== *)
(** ** Proofs about SafeRetry *)
(* ===================================================================== *)

Module RetryFacts.
Import Retry.

(** The log of [k] failed rounds from loop index [i]. *)
Fixpoint fails (b i : Z) (es : list string) : list ev :=
  match es with
  | [] => []
  | e :: es' => EvCall (Some e) :: EvSleep (backoff b i) :: fails b (i + 1) es'
  end.

Definition is_call (x : ev) : bool :=
  match x with EvCall _ => true | EvSleep _ => false end.

Definition calls (tr : list ev) : nat := length (List.filter is_call tr).

Definition last_err (last : option string) (es : list string) : option string :=
  match rev es with [] => last | e :: _ => Some e end.

(** [f] with every error text rewritten by [g]: same nil-ness. *)
Definition relabel {S} (g : string -> string) (fn : S -> S * option string)
    (s : S) : S * option string :=
  let '(s', r) := fn s in (s', option_map g r).

Section Loop.
Context {S : Type}.
Variable Sleep : Z -> S -> S.
Variable a : string.
Variable b : Z.
Variable fn : S -> S * option string.

Lemma loop_obs (k : nat) : forall i last s l,
  exists es tail s' res,
    loop (obs_sleep Sleep) a b (obs_fn fn) k i last (s, l)
      = ((s', l ++ fails b i es ++ tail), res) /\
    ((tail = [EvCall None] /\ res = None /\ (length es < k)%nat) \/
     (tail = [] /\ length es = k /\
      res = Some (Errorf a (last_err last es)))).
Proof.
  induction k as [|k IH]; intros i last s l; simpl.
  - exists [], [], s, (Some (Errorf a last)).
    rewrite !app_nil_r. split; [reflexivity|]. right. auto.
  - destruct (fn s) as [s1 [e|]] eqn:Hfn.
    + destruct (IH (i + 1) (Some e) (Sleep (backoff b i) s1)
                 ((l ++ [EvCall (Some e)]) ++ [EvSleep (backoff b i)]))
        as (es & tail & s' & res & Heq & Hcase).
      exists (e :: es), tail, s', res. split.
      * etransitivity; [exact Heq|]. simpl. rewrite <- !app_assoc. reflexivity.
      * destruct Hcase as [(H1 & H2 & H3) | (H1 & H2 & H3)].
        -- left. simpl. repeat split; auto; lia.
        -- right. simpl. repeat split; auto.
           rewrite H3. unfold last_err. simpl.
           destruct (rev es) eqn:Hr; [|reflexivity].
           apply (f_equal (@rev string)) in Hr. rewrite rev_involutive in Hr.
           subst es. reflexivity.
    + exists [], [EvCall None], s1, None. simpl. split; [reflexivity|].
      left. repeat split; lia.
Qed.

Lemma loop_relabel (g : string -> string) (k : nat) :
  forall i last1 last2 s,
    fst (loop Sleep a b (relabel g fn) k i last1 s)
      = fst (loop Sleep a b fn k i last2 s) /\
    is_nil_opt (snd (loop Sleep a b (relabel g fn) k i last1 s))
      = is_nil_opt (snd (loop Sleep a b fn k i last2 s)).
Proof.
  induction k as [|k IH]; intros i last1 last2 s; simpl; [auto|].
  unfold relabel. destruct (fn s) as [s1 [e|]]; simpl; [apply IH | auto].
Qed.
End Loop.

Lemma fails_no_success (b i : Z) (es : list string) :
  ~ In (EvCall None) (fails b i es).
Proof.
  revert i; induction es as [|e es IH]; intros i; simpl; [tauto|].
  intros [H|[H|H]]; [discriminate|discriminate|exact (IH _ H)].
Qed.

Lemma fails_app (b i : Z) (es : list string) (e : string) :
  fails b i (es ++ [e])
    = fails b i es ++ [EvCall (Some e); EvSleep (backoff b (i + Z.of_nat (length es)))].
Proof.
  revert i; induction es as [|e' es IH]; intros i.
  - simpl. rewrite Z.add_0_r. reflexivity.
  - cbn [app fails]. rewrite IH. cbn [length]. rewrite Nat2Z.inj_succ.
    replace (i + 1 + Z.of_nat (length es)) with (i + Z.succ (Z.of_nat (length es)))
      by lia.
    reflexivity.
Qed.

Lemma calls_fails (b i : Z) (es : list string) :
  calls (fails b i es) = length es.
Proof.
  revert i; induction es as [|e es IH]; intros i; [reflexivity|].
  unfold calls in *. simpl. rewrite IH. reflexivity.
Qed.

Lemma calls_app (l1 l2 : list ev) : calls (l1 ++ l2) = (calls l1 + calls l2)%nat.
Proof. unfold calls. rewrite List.filter_app, length_app. reflexivity. Qed.

Lemma fails_follow (b : Z) (es : list string) :
  forall i tail, (tail = [] \/ tail = [EvCall None]) ->
  forall pre e post, fails b i es ++ tail = pre ++ EvCall (Some e) :: post ->
  exists d post', post = EvSleep d :: post'.
Proof.
  induction es as [|e0 es IH]; intros i tail Ht pre e post Heq; simpl in Heq.
  - destruct Ht as [-> | ->].
    + apply app_cons_not_nil in Heq. contradiction.
    + destruct pre as [|x pre]; simpl in Heq; injection Heq as H1 H2;
        [discriminate|].
      apply app_cons_not_nil in H2. contradiction.
  - destruct pre as [|x [|y pre]]; simpl in Heq; inversion Heq; subst.
    + eauto.
    + eauto using IH.
Qed.

(** The shape of the log of a whole [SafeRetry] run. *)
Lemma run_shape {S} (Sleep : Z -> S -> S) (a : string) (n b : Z)
    (fn : S -> S * option string) (s : S) :
  let n' := if n <? 1 then 1 else n in
  exists es tail,
    fst (run Sleep a n b fn s) = fails b 0 es ++ tail /\
    ((tail = [EvCall None] /\ snd (run Sleep a n b fn s) = None /\
      Z.of_nat (length es) < n') \/
     (tail = [] /\ Z.of_nat (length es) = n' /\
      snd (run Sleep a n b fn s) = Some (Errorf a (last_err None es)))).
Proof.
  intros n'. unfold run, SafeRetry. fold n'.
  assert (Hn : 1 <= n') by (subst n'; destruct (Z.ltb_spec n 1); lia).
  destruct (loop_obs Sleep a b fn (Z.to_nat n') 0 None s [])
    as (es & tail & s' & res & Heq & Hcase).
  rewrite Heq. simpl. exists es, tail. split; [reflexivity|].
  destruct Hcase as [(H1 & H2 & H3) | (H1 & H2 & H3)].
  - left. repeat split; auto. lia.
  - right. repeat split; auto. rewrite H2. lia.
Qed.

(** ** Claims about SafeRetry *)

(** C1 (amended). With [retries = n >= 1] the closure runs at most [n]
    times, the run stops at the first nil result, and the log is: failed
    call [i], then [time.Sleep(backoff baseSleep i)], for [i = 0, 1, ...].
    [backoff b i] is [b * (1 + i*0.35)] computed in float64 and truncated
    to whole nanoseconds, not the exact product. *)
Theorem SafeRetry_calls_and_backoff {S} (Sleep : Z -> S -> S) (a : string)
    (n b : Z) (fn : S -> S * option string) (s : S) (Hn : 1 <= n) :
  Z.of_nat (calls (fst (run Sleep a n b fn s))) <= n /\
  exists es tail,
    fst (run Sleep a n b fn s) = fails b 0 es ++ tail /\
    ((tail = [EvCall None] /\ snd (run Sleep a n b fn s) = None) \/
     (tail = [] /\ Z.of_nat (length es) = n)).
Proof.
  destruct (run_shape Sleep a n b fn s) as (es & tail & Htr & Hcase).
  assert (Hn' : (if n <? 1 then 1 else n) = n)
    by (destruct (Z.ltb_spec n 1); lia).
  rewrite Hn' in Hcase. rewrite Htr, calls_app, calls_fails.
  destruct Hcase as [(-> & H2 & H3) | (-> & H2 & H3)].
  - split; [unfold calls; simpl; lia|]. exists es, [EvCall None]. auto.
  - split; [unfold calls; simpl; lia|]. exists es, []. auto.
Qed.

Lemma SafeRetry_calls_and_backoff_witness :
  1 <= 3 /\
  Z.of_nat (calls (fst (run (fun _ (s : unit) => s) "act" 3 1000
                       (fun s => (s, Some "boom"%string)) tt))) <= 3.
Proof.
  split; [lia|].
  exact (proj1 (SafeRetry_calls_and_backoff (fun _ (s : unit) => s) "act" 3 1000
                  (fun s => (s, Some "boom"%string)) tt ltac:(lia))).
Defined.

(** C1 counterexample. [DeleteInstanceWithStaticIPCleanup] retries with
    [SafeRetry("删除实例", 8, 1200ms, ...)]. When every call fails, the
    sleep after failure [i = 6] is 3 719 999 999 ns. The claimed
    [1.2 s * (1 + 6*0.35)] is exactly 3.72 s. *)
Lemma SafeRetry_backoff_not_exact :
  nth_error (fst (run (fun _ (s : unit) => s) "删除实例" 8 1200000000
                    (fun s => (s, Some "boom"%string)) tt)) 13
    = Some (EvSleep 3719999999) /\
  100 * 3719999999 <> 1200000000 * (100 + 35 * 6).
Proof. split; [vm_compute; reflexivity | lia]. Qed.

(** C2. The retry decision only looks at nil-ness: [SafeRetry] returns
    nil iff some call returned nil; otherwise its error is the formatted
    message built from the last failed call's error; and rewriting every
    error text the closure returns (same nil-ness) changes neither the
    final state nor the nil-ness of the result. *)
Theorem SafeRetry_blind {S} (Sleep : Z -> S -> S) (a : string) (n b : Z)
    (fn : S -> S * option string) (s : S) :
  (snd (run Sleep a n b fn s) = None <-> In (EvCall None) (fst (run Sleep a n b fn s))) /\
  (forall m, snd (run Sleep a n b fn s) = Some m ->
     exists pre e d, fst (run Sleep a n b fn s) = pre ++ [EvCall (Some e); EvSleep d] /\
                     m = Errorf a (Some e)) /\
  (forall g : string -> string,
     fst (SafeRetry Sleep a b (relabel g fn) n s) = fst (SafeRetry Sleep a b fn n s) /\
     is_nil_opt (snd (SafeRetry Sleep a b (relabel g fn) n s))
       = is_nil_opt (snd (SafeRetry Sleep a b fn n s))).
Proof.
  destruct (run_shape Sleep a n b fn s) as (es & tail & Htr & Hcase).
  split; [|split].
  - rewrite Htr. destruct Hcase as [(-> & H2 & _) | (-> & _ & H2)].
    + rewrite H2. split; [intros _; apply in_or_app; right; left; reflexivity|auto].
    + rewrite H2, app_nil_r. split; [discriminate|].
      intros H. exfalso. exact (fails_no_success b 0 es H).
  - intros m Hm. destruct Hcase as [(_ & H2 & _) | (-> & H2 & H3)].
    + congruence.
    + rewrite Hm in H3. injection H3 as H3.
      destruct es as [|e0 es0] eqn:Hes.
      { simpl in H2. destruct (Z.ltb_spec n 1); lia. }
      rewrite <- Hes in *. assert (Hne : es <> []) by (subst es; discriminate).
      destruct (exists_last Hne) as (es' & e & ->).
      exists (fails b 0 es'), e, (backoff b (0 + Z.of_nat (length es'))).
      rewrite Htr, app_nil_r, fails_app. split; [reflexivity|].
      rewrite H3. unfold last_err. rewrite rev_app_distr. reflexivity.
  - intros g. unfold SafeRetry. apply loop_relabel.
Qed.

(** C9. Every run calls the closure at least once (a [retries] below 1
    behaves as 1), and every failed call is followed at once by a sleep,
    the last failed call included. *)
Theorem SafeRetry_at_least_once {S} (Sleep : Z -> S -> S) (a : string)
    (n b : Z) (fn : S -> S * option string) (s : S) :
  SafeRetry Sleep a b fn n s = SafeRetry Sleep a b fn (Z.max 1 n) s /\
  (1 <= calls (fst (run Sleep a n b fn s)))%nat /\
  (exists r rest, fst (run Sleep a n b fn s) = EvCall r :: rest) /\
  (forall pre e post, fst (run Sleep a n b fn s) = pre ++ EvCall (Some e) :: post ->
     exists d post', post = EvSleep d :: post').
Proof.
  destruct (run_shape Sleep a n b fn s) as (es & tail & Htr & Hcase).
  assert (Hfirst : exists r rest, fst (run Sleep a n b fn s) = EvCall r :: rest).
  { rewrite Htr. destruct es as [|e es].
    - destruct Hcase as [(-> & _) | (_ & H2 & _)].
      + simpl. eauto.
      + simpl in H2. destruct (Z.ltb_spec n 1); lia.
    - simpl. eauto. }
  split; [|split; [|split]].
  - unfold SafeRetry. destruct (Z.ltb_spec n 1), (Z.ltb_spec (Z.max 1 n) 1);
      try lia; f_equal; lia.
  - destruct Hfirst as (r & rest & ->). unfold calls. simpl. lia.
  - exact Hfirst.
  - intros pre e post H. rewrite Htr in H.
    eapply (fails_follow b es 0 tail); [|exact H].
    destruct Hcase as [(-> & _) | (-> & _)]; auto.
Qed.

End RetryFacts.

Module QuotaFacts.
Import Quota.

(** Whether a [GetServiceQuota] answer yields a value:
    [e == nil && out != nil && out.Quota != nil && Quota.Value != nil]. *)
Definition has_value (r : option GetServiceQuotaOutput * option string) : bool :=
  match r with
  | (Some out, None) =>
      match Quota out with
      | Some q => match Value q with Some _ => true | None => false end
      | None => false
      end
  | _ => false
  end.

Lemma dec_digits_nonempty (fuel : nat) : forall n acc,
  acc <> EmptyString -> dec_digits fuel n acc <> EmptyString.
Proof.
  induction fuel as [|f IH]; intros n acc Hacc; simpl; [exact Hacc|].
  destruct (n <? 10); [discriminate|]. apply IH. discriminate.
Qed.

Lemma dec_digits_S_nonempty (f : nat) (n : Z) (acc : string) :
  dec_digits (Datatypes.S f) n acc <> EmptyString.
Proof.
  simpl. destruct (n <? 10); [discriminate|].
  apply dec_digits_nonempty. discriminate.
Qed.

Lemma FormatInt_nonempty (v : Z) : FormatInt v <> EmptyString.
Proof.
  unfold FormatInt. destruct (v <? 0); [discriminate|].
  apply dec_digits_S_nonempty.
Qed.

Lemma floatPtrToString_empty (FormatFloat : float -> string)
    (HFF : forall f, FormatFloat f <> EmptyString) (v : option float) :
  floatPtrToString FormatFloat v = EmptyString <-> v = None.
Proof.
  destruct v as [f|]; simpl; [|tauto]. split; [|discriminate].
  destruct (PrimFloat.eqb _ _); intros H; exfalso;
    [exact (FormatInt_nonempty _ H) | exact (HFF _ H)].
Qed.

Lemma read_quota_val (FormatFloat : float -> string)
    (HFF : forall f, FormatFloat f <> EmptyString) r :
  String.eqb (snd (match read_quota FormatFloat r with
                   | Some nv => nv | None => (""%string, ""%string) end)) ""
    = negb (has_value r).
Proof.
  destruct r as [[out|] [e|]]; simpl; try reflexivity.
  destruct (Quota out) as [q|]; simpl; [|reflexivity].
  destruct (String.eqb_spec (floatPtrToString FormatFloat (Value q)) "") as [H|H].
  - apply (floatPtrToString_empty FormatFloat HFF) in H. rewrite H. reflexivity.
  - destruct (Value q) as [f|]; [reflexivity|]. simpl in H. congruence.
Qed.

(** C3 counterexample. The On-Demand lookup fails with AccessDenied, the
    Spot lookup returns 32 vCPUs: [TestVCPUQuotas] returns a nil error. *)
Definition cex_client : Client :=
  fun _ code =>
    if String.eqb code quotaCodeOnDemandStdVcpu
    then (None, Some "AccessDeniedException"%string)
    else (Some {| Quota := Some {| QuotaName := Some "Running Spot"%string;
                                  Value := Some 32%float |} |}, None).

Lemma TestVCPUQuotas_one_error_nil :
  snd (Quota.TestVCPUQuotas (fun _ => EmptyString) (Some cex_client)) = None /\
  snd (cex_client "ec2"%string quotaCodeOnDemandStdVcpu) <> None.
Proof. split; [vm_compute; reflexivity | discriminate]. Qed.

(** C3 (amended). [TestVCPUQuotas] returns a non-nil error iff the client
    is nil or neither lookup yields a quota value (each either failed or
    came back without a value); one failed lookup next to one that
    yields a value gives a nil error. *)
Theorem TestVCPUQuotas_err (FormatFloat : float -> string)
    (HFF : forall f, FormatFloat f <> EmptyString) (cli : option Client) :
  Retry.is_nil_opt (snd (TestVCPUQuotas FormatFloat cli))
    = match cli with
      | None => false
      | Some c => has_value (c "ec2"%string quotaCodeOnDemandStdVcpu)
                  || has_value (c "ec2"%string quotaCodeSpotStdVcpu)
      end.
Proof.
  destruct cli as [c|]; [|reflexivity]. unfold TestVCPUQuotas.
  set (r1 := c "ec2"%string quotaCodeOnDemandStdVcpu).
  set (r2 := c "ec2"%string quotaCodeSpotStdVcpu).
  pose proof (read_quota_val FormatFloat HFF r1) as H1.
  pose proof (read_quota_val FormatFloat HFF r2) as H2.
  clearbody r1 r2.
  destruct (read_quota FormatFloat r1) as [[n1 v1]|];
  destruct (read_quota FormatFloat r2) as [[n2 v2]|];
  cbn [snd] in H1, H2; cbn iota beta zeta;
  rewrite ?H1, ?H2;
  destruct (has_value r1), (has_value r2); cbn in H1, H2;
    first [reflexivity | discriminate H1 | discriminate H2].
Qed.

Lemma TestVCPUQuotas_err_witness :
  (forall f : float, (fun _ => "1.25"%string) f <> EmptyString) /\
  Retry.is_nil_opt (snd (TestVCPUQuotas (fun _ => "1.25"%string) (Some cex_client))) = true.
Proof.
  split; [intros f; discriminate|].
  rewrite (TestVCPUQuotas_err (fun _ => "1.25"%string) (fun f => ltac:(discriminate))).
  vm_compute. reflexivity.
Defined.

End QuotaFacts.

Module LightsailFacts.
Import Lightsail.

Lemma sanitize_loop (l acc : list Z) :
  fold_left (fun b r => if keep r then b ++ [r] else b) l acc
    = acc ++ List.filter keep l.
Proof.
  revert acc; induction l as [|r l IH]; intros acc; simpl.
  - rewrite app_nil_r. reflexivity.
  - rewrite IH. destruct (keep r); [rewrite <- app_assoc|]; reflexivity.
Qed.

Lemma ToLower_ascii (ToLowerRune : Z -> Z)
    (Hascii : forall r, 0 <= r < 128 -> ToLowerRune r = ascii_lower r)
    (s : list Z) :
  forallb (fun r => (0 <=? r) && (r <? 128)) s = true ->
  ToLower ToLowerRune s = map ascii_lower s.
Proof.
  intros H. apply map_ext_in. intros r Hr.
  rewrite forallb_forall in H. specialize (H r Hr).
  apply andb_prop in H as [H1 H2]. apply Hascii. lia.
Qed.

(** C8. [sanitize s] is the lower-cased [s] with every rune outside
    [a-z], [0-9] and [-] dropped, or ["x"] when nothing is left; with any
    [unicode.ToLower] that lower-cases ASCII as usual, the three table
    tests of [TestSanitize] hold. *)
Theorem sanitize_spec (ToLowerRune : Z -> Z)
    (Hascii : forall r, 0 <= r < 128 -> ToLowerRune r = ascii_lower r) :
  (forall s : list Z,
     sanitize ToLowerRune s
       = match List.filter keep (ToLower ToLowerRune s) with
         | [] => runes "x" | t => t end) /\
  sanitize ToLowerRune (runes "My-Instance") = runes "my-instance" /\
  sanitize ToLowerRune (runes "Name@123") = runes "name123" /\
  sanitize ToLowerRune (runes "!!!") = runes "x".
Proof.
  assert (Hs : forall s, sanitize ToLowerRune s
      = match List.filter keep (ToLower ToLowerRune s) with
        | [] => runes "x" | t => t end).
  { intros s. unfold sanitize. rewrite sanitize_loop. simpl app.
    destruct (List.filter keep (ToLower ToLowerRune s)); reflexivity. }
  split; [exact Hs|].
  rewrite !Hs, !(ToLower_ascii ToLowerRune Hascii) by reflexivity.
  split; [|split]; reflexivity.
Qed.

Lemma sanitize_spec_witness :
  (forall r, 0 <= r < 128 -> ascii_lower r = ascii_lower r) /\
  sanitize ascii_lower (runes "Name@123") = runes "name123".
Proof.
  split; [reflexivity|].
  exact (proj1 (proj2 (proj2 (sanitize_spec ascii_lower (fun r _ => eq_refl))))).
Defined.

(** C4 counterexample. [GetInstances] succeeds with one instance and
    [GetStaticIps] fails: [ListInstances] returns the instance and a nil
    error. *)
Definition web1 : Instance :=
  {| ins_Name := Some "web-1"%string; ins_State := Some {| st_Name := Some "running"%string |};
     PublicIpAddress := Some "3.0.0.1"%string; Ipv6Addresses := [];
     Location := Some {| AvailabilityZone := Some "us-east-1a"%string |};
     BundleId := Some "nano_3_0"%string; CreatedAt := None |}.

Lemma ListInstances_static_ip_error_dropped :
  exists vs,
    ListInstances (Some [web1], None) (None, Some "AccessDeniedException"%string)
      = Some (vs, None) /\
    map StaticIPv4 vs = [""%string].
Proof. eexists. split; reflexivity. Qed.

(** C4 (amended). [ListInstances] fails exactly when [GetInstances]
    fails, with ["拉取实例失败："] followed by that error; when it returns
    it returns no other error (its only other outcome is the nil-pointer
    panic); and an error from [GetStaticIps] is discarded: the outcome is
    the same as with that error nil. *)
Theorem ListInstances_errors
    (gi : option (list Instance) * option string)
    (gs : option (list StaticIp) * option string) :
  match ListInstances gi gs with
  | Some (_, err) => err = option_map (fun e => ("拉取实例失败：" ++ e)%string) (snd gi)
  | None => snd gi = None
  end /\
  ListInstances gi gs = ListInstances gi (fst gs, None).
Proof.
  destruct gi as [[insts|] [e|]], gs as [sip e2]; simpl; auto.
  split; [|reflexivity].
  destruct (views_of _ insts); reflexivity.
Qed.

End LightsailFacts.

Module LightsailCallsFacts.
Import Lightsail LightsailCalls.

Section Facts.
Context {E : Type}.
Variable GetStaticIps : E -> E * (option (list StaticIp) * option string).
Variable GetStaticIp : string -> E -> E * (option (option StaticIp) * option string).
Variable DetachStaticIp : string -> E -> E * option string.
Variable ReleaseStaticIp : string -> E -> E * option string.
Variable DeleteInstance : string -> E -> E * option string.

Lemma call_log {A} (r : req) (f : E -> E * A) (w : @world E) :
  log (fst (call r f w)) = log w ++ [r].
Proof. unfold call. destruct (f (env w)). reflexivity. Qed.

Lemma loop_log (a : string) (b : Z) (fn : @world E -> @world E * option string)
    (Hfn : forall w, exists rest, log (fst (fn w)) = log w ++ rest)
    (k : nat) : forall i last w,
  exists rest, log (fst (Retry.loop Sleep a b fn k i last w)) = log w ++ rest.
Proof.
  induction k as [|k IH]; intros i last w; simpl.
  - exists []. rewrite app_nil_r. reflexivity.
  - destruct (Hfn w) as [rest1 H1]. destruct (fn w) as [w1 [e|]] eqn:Hf; simpl in H1.
    + destruct (IH (i + 1) (Some e) (Sleep (Retry.backoff b i) w1)) as [rest2 H2].
      rewrite H2. simpl. rewrite H1, <- app_assoc. eauto.
    + simpl. rewrite H1. eauto.
Qed.

Lemma loop_call_first (a : string) (b : Z) (r : req)
    (f : E -> E * option string) (k : nat) (i : Z) (last : option string)
    (w : @world E) :
  exists rest,
    log (fst (Retry.loop Sleep a b (call r f) (Datatypes.S k) i last w))
      = log w ++ r :: rest.
Proof.
  simpl. unfold call at 1. destruct (f (env w)) as [e' [err|]]; simpl.
  - destruct (loop_log a b (call r f) (fun w' => ex_intro _ _ (call_log r f w'))
                k (i + 1) (Some err)
                (Sleep (Retry.backoff b i)
                   {| env := e'; clock := clock w; log := log w ++ [r] |}))
      as [rest H].
    exists rest. etransitivity; [exact H|]. simpl. rewrite <- app_assoc. reflexivity.
  - exists []. reflexivity.
Qed.

(** C10. Whatever the static-IP cleanup does and returns (success or any
    error from the detach, the wait or the release), the very next
    request [DeleteInstanceWithStaticIPCleanup] sends is the
    [DeleteInstance] of the instance. *)
Theorem delete_after_cleanup (name : string) (w : @world E) :
  exists rest,
    log (fst (DeleteInstanceWithStaticIPCleanup GetStaticIps GetStaticIp
                DetachStaticIp ReleaseStaticIp DeleteInstance name w))
      = log (fst (DeletePreviousStaticIPOnlyForInstance GetStaticIps GetStaticIp
                    DetachStaticIp ReleaseStaticIp name w))
        ++ RDeleteInstance name :: rest.
Proof.
  unfold DeleteInstanceWithStaticIPCleanup.
  destruct (DeletePreviousStaticIPOnlyForInstance GetStaticIps GetStaticIp
              DetachStaticIp ReleaseStaticIp name w) as [w1 r].
  exact (loop_call_first "删除实例" (1200 * 1000000) (RDeleteInstance name)
           (DeleteInstance name) 7 0 None w1).
Qed.
End Facts.

(** A run where the cleanup fails: [web-1] has the static IP [sip-old]
    attached and every [DetachStaticIp] fails. The cleanup returns the
    detach error and the [DeleteInstance] request is still sent. *)
Definition sip_old : StaticIp :=
  {| si_Name := Some "sip-old"%string; AttachedTo := Some "web-1"%string;
     IpAddress := Some "3.0.0.9"%string; IsAttached := Some true |}.

Definition w0 : @world unit := {| env := tt; clock := 0; log := [] |}.

Lemma delete_after_failed_cleanup :
  snd (DeletePreviousStaticIPOnlyForInstance
         (fun e => (e, (Some [sip_old], None)))
         (fun _ e => (e, (None, Some "NotFoundException"%string)))
         (fun _ e => (e, Some "OperationFailureException"%string))
         (fun _ e => (e, None)) "web-1"%string w0)
    = (""%string, Some "解绑旧静态IP 失败：OperationFailureException"%string) /\
  In (RDeleteInstance "web-1"%string)
     (log (fst (DeleteInstanceWithStaticIPCleanup
                  (fun e => (e, (Some [sip_old], None)))
                  (fun _ e => (e, (None, Some "NotFoundException"%string)))
                  (fun _ e => (e, Some "OperationFailureException"%string))
                  (fun _ e => (e, None))
                  (fun _ e => (e, None)) "web-1"%string w0))).
Proof. split; vm_compute; [reflexivity | auto 20]. Qed.

End LightsailCallsFacts.

Module StoreFacts.
Import Store.

Definition db_admin : DB :=
  {| users := [{| u_id := 1; u_username := "admin"; u_password_hash := "$2a$10$h" |}];
     users_seq := 1; api_keys := []; api_keys_seq := 0 |}.

Definition bcrypt_stub (p : string) : string + string := inr ("$2a$10$" ++ p)%string.

(** A run in which every SQL call succeeds. *)
Definition no_fault : sql_call -> option string := fun _ => None.

Lemma select_user_in (db : DB) (u : string) :
  select_user db u = None <-> ~ In u (map u_username (users db)).
Proof.
  unfold select_user. split.
  - intros H Hin. apply in_map_iff in Hin as (x & Hx & Hin).
    pose proof (find_none _ _ H x Hin) as Hf. simpl in Hf.
    rewrite Hx, String.eqb_refl in Hf. discriminate.
  - intros Hn. destruct (List.find _ (users db)) as [x|] eqn:Hf; [|reflexivity].
    exfalso. apply find_some in Hf as [Hin Heq].
    apply String.eqb_eq in Heq. apply Hn. rewrite <- Heq. apply in_map, Hin.
Qed.

(** C5 counterexample. With a user [admin] present and every SQL call
    succeeding, [EnsureUser("admin", "  ")] returns [(false,
    "username/password required")], not [(false, nil)]. *)
Lemma EnsureUser_existing_blank_password :
  EnsureUser bcrypt_stub no_fault "admin" "  " db_admin
    = (db_admin, (false, Some "username/password required"%string)).
Proof. reflexivity. Qed.

(** [strings.TrimSpace] trims Unicode spaces too: with [admin] present,
    [EnsureUser("\u00a0admin", "pw")] finds the user and inserts no row. *)
Lemma EnsureUser_nbsp_admin :
  EnsureUser bcrypt_stub no_fault
    (String (ascii_of_nat 194) (String (ascii_of_nat 160) "admin")) "pw" db_admin
    = (db_admin, (false, None)).
Proof. vm_compute. reflexivity. Qed.

(** C5 (amended). When [TrimSpace(u)] is already a username, [EnsureUser]
    inserts no row and returns [false]. Its error is ["username/password
    required"] when the trimmed username or password is empty, and
    otherwise the error of preparing or running the [SELECT] on [users]:
    nil when that query succeeds. In every case it keeps usernames
    unique. *)
Theorem EnsureUser_unique (GenerateFromPassword : string -> string + string)
    (fault : sql_call -> option string) (db : DB) (u p : string) :
  (In (TrimSpace u) (map u_username (users db)) ->
     EnsureUser GenerateFromPassword fault u p db
       = (db, (false, if String.eqb (TrimSpace u) "" || String.eqb (TrimSpace p) ""
                      then Some "username/password required"%string
                      else first_fault fault [PrepareSelectUser; ScanSelectUser]))) /\
  (NoDup (map u_username (users db)) ->
     NoDup (map u_username (users (fst (EnsureUser GenerateFromPassword fault u p db))))).
Proof.
  unfold EnsureUser. split.
  - intros Hin. destruct (String.eqb (TrimSpace u) "" || String.eqb (TrimSpace p) "");
      [reflexivity|]. simpl.
    destruct (fault PrepareSelectUser); [reflexivity|].
    destruct (fault ScanSelectUser); [reflexivity|].
    destruct (select_user db (TrimSpace u)) eqn:Hs; [reflexivity|].
    apply select_user_in in Hs. contradiction.
  - intros Hnd. destruct (String.eqb (TrimSpace u) "" || String.eqb (TrimSpace p) "");
      [exact Hnd|].
    destruct (fault PrepareSelectUser); [exact Hnd|].
    destruct (fault ScanSelectUser); [exact Hnd|].
    destruct (select_user db (TrimSpace u)) eqn:Hs; [exact Hnd|].
    destruct (GenerateFromPassword (TrimSpace p)) as [e|h]; [exact Hnd|].
    destruct (fault PrepareInsertUser); [exact Hnd|].
    destruct (fault ExecInsertUser); [exact Hnd|].
    unfold insert_user. rewrite Hs. simpl.
    rewrite map_app. simpl. apply NoDup_app. split; [exact Hnd|split].
    + intros x Hx Hy. apply list_elem_of_singleton in Hy. subst x.
      apply list_elem_of_In in Hx. apply select_user_in in Hs. contradiction.
    + apply NoDup_singleton.
Qed.

Lemma in_insert_desc (k x : Key) (l : list Key) :
  In x (insert_desc k l) <-> k = x \/ In x l.
Proof.
  induction l as [|h t IH]; simpl; [tauto|].
  destruct (k_id h <? k_id k); simpl; [tauto|]. rewrite IH. tauto.
Qed.

Lemma in_sort_desc (x : Key) (l : list Key) : In x (sort_desc l) <-> In x l.
Proof.
  induction l as [|h t IH]; simpl; [tauto|].
  rewrite in_insert_desc, IH. split; intros [H|H]; auto.
Qed.

(** C6. Keys are scoped to their owner: [ListKeys(u)] returns only keys of
    [u], and [DeleteKey(u, k)] and [UpdateKey(u, k, ...)] leave the keys
    of any other user [u'] exactly as they were. *)
Theorem keys_scoped (now : string) (db : DB) (u u' : Z) (Hne : u <> u')
    (keyID : Z) (name accessKey secretKey proxy : string) :
  (forall x, In x (fst (ListKeys u db)) -> k_user_id x = u) /\
  List.filter (fun k => k_user_id k =? u') (api_keys (fst (DeleteKey u keyID db)))
    = List.filter (fun k => k_user_id k =? u') (api_keys db) /\
  List.filter (fun k => k_user_id k =? u')
      (api_keys (fst (UpdateKey now u keyID name accessKey secretKey proxy db)))
    = List.filter (fun k => k_user_id k =? u') (api_keys db).
Proof.
  split; [|split].
  - intros x Hx. unfold ListKeys in Hx. simpl in Hx.
    apply in_sort_desc, filter_In in Hx as [_ Hx]. apply Z.eqb_eq, Hx.
  - unfold DeleteKey. destruct (keyID =? 0); [reflexivity|]. simpl.
    induction (api_keys db) as [|k ks IH]; [reflexivity|]. simpl.
    destruct (Z.eqb_spec (k_user_id k) u) as [Hu|Hu].
    + assert (Hu' : (k_user_id k =? u') = false) by (apply Z.eqb_neq; lia).
      destruct (k_id k =? keyID); simpl; rewrite ?Hu'; exact IH.
    + rewrite andb_false_r. simpl. destruct (k_user_id k =? u'); rewrite IH; reflexivity.
  - unfold UpdateKey. destruct (keyID =? 0); [reflexivity|].
    destruct (String.eqb (TrimSpace accessKey) "" || String.eqb (TrimSpace secretKey) "");
      [reflexivity|]. simpl.
    induction (api_keys db) as [|k ks IH]; [reflexivity|]. simpl.
    destruct (Z.eqb_spec (k_user_id k) u); rewrite ?andb_false_r; simpl.
    + destruct (k_id k =? keyID); simpl;
        destruct (Z.eqb_spec (k_user_id k) u'); try lia; exact IH.
    + rewrite IH. reflexivity.
Qed.

Definition db_two_users : DB :=
  {| users := []; users_seq := 2;
     api_keys := [{| k_id := 1; k_user_id := 1; k_name := "a"; k_access_key := "AK1";
                     k_secret_key := "SK1"; k_proxy := ""; k_created_at := "" |};
                  {| k_id := 2; k_user_id := 2; k_name := "b"; k_access_key := "AK2";
                     k_secret_key := "SK2"; k_proxy := ""; k_created_at := "" |}];
     api_keys_seq := 2 |}.

Lemma keys_scoped_witness :
  1 <> 2 /\
  List.filter (fun k => k_user_id k =? 2) (api_keys (fst (DeleteKey 1 2 db_two_users)))
    = List.filter (fun k => k_user_id k =? 2) (api_keys db_two_users).
Proof.
  split; [lia|].
  exact (proj1 (proj2 (keys_scoped "2026-01-01 00:00" db_two_users 1 2
                         ltac:(lia) 2 "x" "AK" "SK" ""))).
Defined.

End StoreFacts.

Module SessionFacts.
Import Session.

Lemma reachable_ttl (st : Store) : reachable st -> ttl st = 30 * minute.
Proof.
  induction 1 as [| now id st _ IH | now id key val st _ IH
                  | now id key def st _ IH | now st _ IH].
  - reflexivity.
  - unfold GetOrCreate. destruct (m st !! id); exact IH.
  - unfold SetString. destruct (m st !! id); exact IH.
  - unfold GetString. destruct (m st !! id); exact IH.
  - exact IH.
Qed.

Lemma sweep_lookup (cut : Z) (acc m0 : gmap string Session) (i : string) :
  map_fold (fun id sess acc =>
              if lastAccess sess <? cut then delete id acc else acc) acc m0 !! i
    = match m0 !! i with
      | Some s => if lastAccess s <? cut then None else acc !! i
      | None => acc !! i
      end.
Proof.
  revert i.
  refine (map_fold_weak_ind
            (fun r m0 => forall i, r !! i = match m0 !! i with
               | Some s => if lastAccess s <? cut then None else acc !! i
               | None => acc !! i end) _ acc _ _ m0).
  - intros i. rewrite lookup_empty. reflexivity.
  - intros j x m1 r Hj IH i. destruct (decide (i = j)) as [->|Hne].
    + rewrite lookup_insert_eq. destruct (lastAccess x <? cut).
      * apply lookup_delete_eq.
      * rewrite IH, Hj. reflexivity.
    + rewrite lookup_insert_ne by congruence. rewrite <- IH.
      destruct (lastAccess x <? cut); [|reflexivity].
      apply lookup_delete_ne. congruence.
Qed.

(** C7. In every store the program can reach, one sweep at time [now]
    removes exactly the sessions last accessed strictly before
    [now - 30 min] and keeps every other session unchanged. *)
Theorem cleanupExpired_exact (st : Store) (Hr : reachable st) (now : Z) (id : string) :
  m (cleanupExpired now st) !! id
    = match m st !! id with
      | Some s => if lastAccess s <? now - 30 * minute then None else Some s
      | None => None
      end.
Proof.
  unfold cleanupExpired. simpl. rewrite sweep_lookup, (reachable_ttl st Hr).
  destruct (m st !! id) as [s|] eqn:Hs; [|reflexivity].
  destruct (lastAccess s <? now - 30 * minute); reflexivity.
Qed.

Lemma cleanupExpired_exact_witness :
  reachable (fst (GetOrCreate 0 "sid" NewStore)) /\
  m (cleanupExpired (31 * minute) (fst (GetOrCreate 0 "sid" NewStore))) !! "sid"%string = None.
Proof.
  assert (Hr : reachable (fst (GetOrCreate 0 "sid" NewStore)))
    by (apply reach_get, reach_new).
  split; [exact Hr|].
  rewrite (cleanupExpired_exact _ Hr). reflexivity.
Defined.

End SessionFacts.

Module StoreOpsFacts.
Import Store StoreOps.

(** The AUTOINCREMENT counter is at least every id in the table. *)
Definition seq_bound (db : DB) : Prop :=
  Forall (fun k => k_id k <= api_keys_seq db) (api_keys db).

Lemma select_user_app (us : list User) (v : User) (u : string) :
  List.find (fun x => String.eqb (u_username x) u) us = None ->
  String.eqb (u_username v) u = true ->
  List.find (fun x => String.eqb (u_username x) u) (us ++ [v]) = Some v.
Proof.
  induction us as [|x xs IH]; simpl; intros Hn Hv.
  - rewrite Hv. reflexivity.
  - destruct (String.eqb (u_username x) u); [discriminate|]. exact (IH Hn Hv).
Qed.

(** X: [CreateKey] with non-blank access and secret keys returns the
    error of its first failing SQL call, with id 0 and the tables as they
    were; when no call fails it returns a nil error and the next id, and
    appends one row: its id is above every id in the table, it belongs to
    [userID] and holds the given values (the name defaulting to [now] when
    blank). Nothing else changes and the counter still bounds every id. *)
Theorem CreateKey_appends (fault : sql_call -> option string) (now ts : string)
    (userID : Z) (name accessKey secretKey proxy : string) (db : DB)
    (Hb : seq_bound db)
    (Hak : TrimSpace accessKey <> ""%string) (Hsk : TrimSpace secretKey <> ""%string) :
  let '(db', (id, err)) := CreateKey fault now ts userID name accessKey secretKey proxy db in
  err = first_fault fault create_key_calls /\
  (err <> None -> db' = db /\ id = 0) /\
  (err = None ->
     id = api_keys_seq db + 1 /\ seq_bound db' /\ users db' = users db /\
     (forall x, In x (api_keys db) -> k_id x < id) /\
     exists k, api_keys db' = api_keys db ++ [k] /\
       k_id k = id /\ k_user_id k = userID /\ k_access_key k = accessKey /\
       k_secret_key k = secretKey /\ k_proxy k = proxy /\
       k_name k = (if String.eqb (TrimSpace name) "" then now else name)).
Proof.
  unfold CreateKey.
  apply String.eqb_neq in Hak. apply String.eqb_neq in Hsk. rewrite Hak, Hsk. simpl orb.
  cbv iota beta zeta.
  destruct (first_fault fault create_key_calls) as [e|] eqn:Hf.
  - split; [reflexivity|split; [auto|discriminate]].
  - split; [reflexivity|split; [intros H; contradiction H; reflexivity|intros _]].
    unfold seq_bound in *. cbn [api_keys users api_keys_seq].
    split; [reflexivity|split; [|split; [reflexivity|split]]].
    + apply Forall_app. split.
      * eapply Forall_impl; [exact Hb|]. simpl. intros x Hx. lia.
      * constructor; [simpl; lia|constructor].
    + intros x Hx. rewrite List.Forall_forall in Hb. specialize (Hb x Hx). lia.
    + match goal with |- context [ (api_keys db ++ [?k])%list ] => exists k end.
      repeat split.
Qed.

Definition db_key_seq : DB :=
  {| users := []; users_seq := 0;
     api_keys := [{| k_id := 3; k_user_id := 1; k_name := "a"; k_access_key := "AK1";
                     k_secret_key := "SK1"; k_proxy := ""; k_created_at := "" |}];
     api_keys_seq := 3 |}.

Lemma CreateKey_appends_witness :
  seq_bound db_key_seq /\
  fst (snd (CreateKey StoreFacts.no_fault "2026-01-01 00:00" "2026-01-01 00:00:00" 1 ""
              "AK2" "SK2" "" db_key_seq)) = 4.
Proof.
  assert (Hb : seq_bound db_key_seq) by (repeat constructor; simpl; lia).
  split; [exact Hb|].
  pose proof (CreateKey_appends StoreFacts.no_fault "2026-01-01 00:00" "2026-01-01 00:00:00"
                1 "" "AK2" "SK2" "" db_key_seq Hb
                ltac:(vm_compute; discriminate) ltac:(vm_compute; discriminate)) as H.
  destruct (CreateKey _ _ _ _ _ _ _ _ _) as [db' [id err]].
  destruct H as (Herr & _ & H). simpl in Herr.
  destruct (H Herr) as [-> _]. reflexivity.
Defined.

(** X: [AuthenticateUser] returns a user only for a stored row whose
    username is the trimmed username and whose hash matches the trimmed
    password; otherwise it returns a nil user and an error. *)
Theorem AuthenticateUser_sound (Compare : string -> string -> bool)
    (fault : sql_call -> option string) (username password : string) (db : DB) :
  match AuthenticateUser Compare fault username password db with
  | (Some u, err) =>
      err = None /\ In u (users db) /\ u_username u = TrimSpace username /\
      Compare (u_password_hash u) (TrimSpace password) = true
  | (None, err) => err <> None
  end.
Proof.
  unfold AuthenticateUser.
  destruct (String.eqb (TrimSpace username) "" || String.eqb (TrimSpace password) "");
    [discriminate|].
  destruct (fault PrepareAuthUser); [discriminate|].
  destruct (fault ScanAuthUser); [discriminate|].
  destruct (select_user db (TrimSpace username)) as [u|] eqn:Hs; [|discriminate].
  unfold select_user in Hs. apply find_some in Hs as [Hin Heq].
  apply String.eqb_eq in Heq.
  destruct (Compare (u_password_hash u) (TrimSpace password)) eqn:Hc; simpl;
    [auto | discriminate].
Qed.

Section Login.
Variable GenerateFromPassword : string -> string + string.
Variable Compare : string -> string -> bool.
(** bcrypt's round trip: a hash made from a password matches it. *)
Hypothesis Hbcrypt : forall p h, GenerateFromPassword p = inr h -> Compare h p = true.

(** X: a user that [EnsureUser] has just created can log in with the same
    username and password, in any run whose login query succeeds; the
    user returned is the new row. *)
Theorem EnsureUser_then_login (fault1 fault2 : sql_call -> option string)
    (username password : string) (db db' : DB) :
  EnsureUser GenerateFromPassword fault1 username password db = (db', (true, None)) ->
  fault2 PrepareAuthUser = None -> fault2 ScanAuthUser = None ->
  exists u, AuthenticateUser Compare fault2 username password db' = (Some u, None) /\
    u_username u = TrimSpace username /\ In u (users db') /\ ~ In u (users db).
Proof.
  intros HE Hp Hs2. revert HE.
  unfold EnsureUser, AuthenticateUser. rewrite Hp, Hs2.
  destruct (String.eqb (TrimSpace username) "" || String.eqb (TrimSpace password) "")
    eqn:Hblank; [discriminate|].
  destruct (fault1 PrepareSelectUser); [discriminate|].
  destruct (fault1 ScanSelectUser); [discriminate|].
  destruct (select_user db (TrimSpace username)) eqn:Hs; [discriminate|].
  destruct (GenerateFromPassword (TrimSpace password)) as [e|h] eqn:Hg; [discriminate|].
  destruct (fault1 PrepareInsertUser); [discriminate|].
  destruct (fault1 ExecInsertUser); [discriminate|].
  unfold insert_user. rewrite Hs. intros Heq. inversion Heq; subst db'. clear Heq.
  eexists. unfold select_user at 1. simpl.
  rewrite (select_user_app _ _ _ Hs) by apply String.eqb_refl. simpl.
  rewrite (Hbcrypt _ _ Hg). simpl.
  split; [reflexivity|split; [reflexivity|split]].
  - apply in_or_app. right. now left.
  - intros Hin. pose proof (find_none _ _ Hs _ Hin) as Hf. simpl in Hf.
    rewrite String.eqb_refl in Hf. discriminate.
Qed.
End Login.

Lemma EnsureUser_then_login_witness :
  (forall p h, StoreFacts.bcrypt_stub p = inr h ->
     String.eqb h ("$2a$10$" ++ p) = true) /\
  EnsureUser StoreFacts.bcrypt_stub StoreFacts.no_fault " bob " "pw" StoreFacts.db_admin
    = (fst (EnsureUser StoreFacts.bcrypt_stub StoreFacts.no_fault " bob " "pw"
              StoreFacts.db_admin), (true, None)) /\
  exists u, AuthenticateUser (fun h p => String.eqb h ("$2a$10$" ++ p)) StoreFacts.no_fault
              "bob" "pw" (fst (EnsureUser StoreFacts.bcrypt_stub StoreFacts.no_fault " bob " "pw"
                                 StoreFacts.db_admin)) = (Some u, None).
Proof.
  assert (Hb : forall p h, StoreFacts.bcrypt_stub p = inr h ->
             String.eqb h ("$2a$10$" ++ p) = true).
  { intros p h H. inversion H. apply String.eqb_refl. }
  assert (He : EnsureUser StoreFacts.bcrypt_stub StoreFacts.no_fault " bob " "pw"
                 StoreFacts.db_admin
    = (fst (EnsureUser StoreFacts.bcrypt_stub StoreFacts.no_fault " bob " "pw"
              StoreFacts.db_admin), (true, None))) by reflexivity.
  split; [exact Hb|split; [exact He|]].
  destruct (EnsureUser_then_login StoreFacts.bcrypt_stub
              (fun h p => String.eqb h ("$2a$10$" ++ p)) Hb StoreFacts.no_fault
              StoreFacts.no_fault " bob " "pw" _ _ He eq_refl eq_refl)
    as (u & Hu & _).
  exists u. exact Hu.
Defined.

End StoreOpsFacts.

Module SessionOpsFacts.
Import Session.

Lemma GetOrCreate_spec (now : Z) (id : string) (st : Store) :
  m (fst (GetOrCreate now id st)) !! id = Some (snd (GetOrCreate now id st)) /\
  sm (snd (GetOrCreate now id st))
    = match m st !! id with Some s => sm s | None => ∅ end /\
  lastAccess (snd (GetOrCreate now id st)) = now /\
  (forall id', id' <> id -> m (fst (GetOrCreate now id st)) !! id' = m st !! id').
Proof.
  unfold GetOrCreate. destruct (m st !! id) as [s|]; simpl;
    (split; [apply lookup_insert_eq|split; [reflexivity|split; [reflexivity|]]]);
    intros id' Hne; apply lookup_insert_ne; congruence.
Qed.

(** X: within a session obtained by [GetOrCreate], [GetString(key')]
    after [SetString(key, val)] gives [val] for [key' = key] and what it
    gave before for any other key. *)
Theorem SetString_GetString (t0 t1 t2 : Z) (id key val key' def : string) (st : Store) :
  let st1 := fst (GetOrCreate t0 id st) in
  snd (GetString t2 id key' def (SetString t1 id key val st1))
    = if String.eqb key' key then val else snd (GetString t2 id key' def st1).
Proof.
  cbv zeta. destruct (GetOrCreate_spec t0 id st) as (H1 & _).
  unfold SetString. rewrite H1.
  unfold GetString. simpl. rewrite lookup_insert_eq, H1. simpl.
  destruct (String.eqb_spec key' key) as [->|Hne].
  - rewrite lookup_insert_eq. reflexivity.
  - rewrite lookup_insert_ne by congruence. reflexivity.
Qed.

(** X: in every reachable store, a session accessed by [GetOrCreate] at
    time [t] survives every sweep up to [t + 30 min], with the values it
    had. *)
Theorem access_survives_sweep (st : Store) (Hr : reachable st) (t now : Z)
    (id : string) (Hnow : now <= t + 30 * minute) :
  m (cleanupExpired now (fst (GetOrCreate t id st))) !! id
    = Some (snd (GetOrCreate t id st)).
Proof.
  unfold cleanupExpired. simpl. rewrite SessionFacts.sweep_lookup.
  rewrite (SessionFacts.reachable_ttl _ (reach_get t id st Hr)).
  destruct (GetOrCreate_spec t id st) as (-> & _ & Hl & _).
  rewrite Hl. destruct (Z.ltb_spec t (now - 30 * minute)); [lia|].
  reflexivity.
Qed.

Lemma access_survives_sweep_witness :
  reachable NewStore /\ 30 * minute <= 0 + 30 * minute /\
  m (cleanupExpired (30 * minute) (fst (GetOrCreate 0 "sid" NewStore))) !! "sid"%string
    = Some (snd (GetOrCreate 0 "sid" NewStore)).
Proof.
  split; [exact reach_new|split; [lia|]].
  exact (access_survives_sweep NewStore reach_new 0 (30 * minute) "sid" ltac:(lia)).
Defined.

End SessionOpsFacts.

Module LightsailOpsFacts.
Import Lightsail.

Lemma sanitize_filter (ToLowerRune : Z -> Z) (s : list Z) :
  sanitize ToLowerRune s
    = match List.filter keep (ToLower ToLowerRune s) with [] => [120] | t => t end.
Proof.
  unfold sanitize. rewrite LightsailFacts.sanitize_loop. simpl app.
  destruct (List.filter keep (ToLower ToLowerRune s)); reflexivity.
Qed.

Lemma keep_range (r : Z) : keep r = true -> 45 <= r <= 122.
Proof.
  unfold keep. intros H.
  repeat (apply orb_prop in H as [H|H] || apply andb_prop in H as [? H]);
    repeat match goal with Hb : (_ <=? _) = true |- _ => apply Z.leb_le in Hb end;
    try (apply Z.eqb_eq in H); try (apply Z.leb_le in H); lia.
Qed.

Lemma sanitize_keep (ToLowerRune : Z -> Z) (s : list Z) :
  sanitize ToLowerRune s <> [] /\ Forall (fun r => keep r = true) (sanitize ToLowerRune s).
Proof.
  rewrite sanitize_filter.
  destruct (List.filter keep (ToLower ToLowerRune s)) as [|r t] eqn:Hf.
  - split; [discriminate|]. repeat constructor.
  - split; [discriminate|]. rewrite <- Hf. apply List.Forall_forall.
    intros x Hx. apply filter_In in Hx as [_ Hx]. exact Hx.
Qed.

(** X: [sanitize] never returns the empty string, and every rune it
    returns is in [a-z], [0-9] or [-], whatever [unicode.ToLower] does. *)
Theorem sanitize_valid (ToLowerRune : Z -> Z) (s : list Z) :
  sanitize ToLowerRune s <> [] /\ Forall (fun r => keep r = true) (sanitize ToLowerRune s).
Proof. exact (sanitize_keep ToLowerRune s). Qed.

(** X: with a [unicode.ToLower] that lower-cases ASCII as usual,
    [sanitize] is idempotent: a sanitized name is left as it is. *)
Theorem sanitize_idempotent (ToLowerRune : Z -> Z)
    (Hascii : forall r, 0 <= r < 128 -> ToLowerRune r = ascii_lower r) (s : list Z) :
  sanitize ToLowerRune (sanitize ToLowerRune s) = sanitize ToLowerRune s.
Proof.
  destruct (sanitize_keep ToLowerRune s) as [Hne Hk].
  set (t := sanitize ToLowerRune s) in *. clearbody t.
  assert (Hl : ToLower ToLowerRune t = t).
  { unfold ToLower. rewrite <- (map_id t) at 2. apply map_ext_in. intros r Hr.
    rewrite List.Forall_forall in Hk. pose proof (Hk r Hr) as Hr'.
    pose proof (keep_range r Hr') as Hrange.
    rewrite Hascii by lia. unfold ascii_lower.
    destruct (Z.leb_spec 65 r), (Z.leb_spec r 90); simpl; try reflexivity.
    unfold keep in Hr'.
    repeat (apply orb_prop in Hr' as [Hr'|Hr'] || apply andb_prop in Hr' as [? Hr']);
      repeat match goal with Hb : (_ <=? _) = true |- _ => apply Z.leb_le in Hb end;
      try (apply Z.eqb_eq in Hr'); try (apply Z.leb_le in Hr'); lia. }
  rewrite sanitize_filter, Hl.
  assert (Hf : List.filter keep t = t).
  { clear Hne Hl. induction t as [|r t IH]; [reflexivity|].
    inversion Hk as [|? ? Hr Ht]; subst. simpl. rewrite Hr, IH by exact Ht. reflexivity. }
  rewrite Hf. destruct t; [contradiction|reflexivity].
Qed.

Lemma sanitize_idempotent_witness :
  (forall r, 0 <= r < 128 -> ascii_lower r = ascii_lower r) /\
  sanitize ascii_lower (sanitize ascii_lower (runes "Web_01")) = runes "web01".
Proof.
  split; [reflexivity|].
  rewrite (sanitize_idempotent ascii_lower (fun r _ => eq_refl)). reflexivity.
Defined.



(** A static IP the Go loop counts as attached to [n]. *)
Definition attached_to (n : string) (si : StaticIp) : Prop :=
  AttachedTo si = Some n /\ IsAttached si <> Some false.



Lemma views_of_names (sm : gmap string string) (l : list Instance) :
  (views_of sm l = None <-> exists ins, In ins l /\ Location ins = None) /\
  forall vs, views_of sm l = Some vs -> map Name vs = map (fun ins => str (ins_Name ins)) l.
Proof.
  induction l as [|ins l [IH1 IH2]]; simpl.
  - split; [split; [discriminate|intros (? & [] & _)]|]. intros vs H. inversion H. reflexivity.
  - unfold view_of at 1 2. destruct (Location ins) as [loc|] eqn:Hloc.
    + destruct (views_of sm l) as [vs0|] eqn:Hl.
      * split.
        -- split; [discriminate|]. intros (i & [<-|Hi] & Hn); [congruence|].
           assert (Hx : Some vs0 = None) by (apply IH1; eauto). discriminate.
        -- intros vs H. inversion H; subst. simpl. f_equal. apply IH2. reflexivity.
      * split; [|discriminate]. split; [intros _|reflexivity].
        destruct (proj1 IH1 eq_refl) as (i & Hi & Hn). eauto.
    + split; [|discriminate]. split; [intros _; exists ins; auto|reflexivity].
Qed.

(** X: when [GetInstances] succeeds, [ListInstances] panics on a nil
    pointer exactly when some instance has no [Location]; otherwise it
    returns one view per instance, in order, with the instance's name,
    and a nil error. *)
Theorem ListInstances_lists (insts : list Instance)
    (gs : option (list StaticIp) * option string) :
  (ListInstances (Some insts, None) gs = None <->
     exists ins, In ins insts /\ Location ins = None) /\
  forall vs err, ListInstances (Some insts, None) gs = Some (vs, err) ->
    err = None /\ map Name vs = map (fun ins => str (ins_Name ins)) insts.
Proof.
  unfold ListInstances. destruct gs as [sipOut e].
  set (sm := match sipOut with Some l => staticMap_of l | None => ∅ end).
  destruct (views_of_names sm insts) as [H1 H2].
  destruct (views_of sm insts) as [vs0|] eqn:Hv.
  - split; [split; [discriminate|intros Hx; apply H1 in Hx; discriminate]|].
    intros vs err H. inversion H; subst. auto.
  - split; [split; [intros _; apply H1; reflexivity|reflexivity]|discriminate].
Qed.




End LightsailOpsFacts.

Module CleanupFacts.
Import Lightsail LightsailCalls.

Section Facts.
Context {E : Type}.
Variable GetStaticIps : E -> E * (option (list StaticIp) * option string).
Variable GetStaticIp : string -> E -> E * (option (option StaticIp) * option string).
Variable DetachStaticIp : string -> E -> E * option string.
Variable ReleaseStaticIp : string -> E -> E * option string.

Lemma call_clock {A} (r : req) (f : E -> E * A) (w : @world E) :
  clock (fst (call r f w)) = clock w.
Proof. unfold call. destruct (f (env w)). reflexivity. Qed.

Lemma loop_repeat (a : string) (b : Z) (r : req) (f : E -> E * option string) (k : nat) :
  forall i last (w : @world E), exists j, (j <= k)%nat /\ ((0 < k)%nat -> (0 < j)%nat) /\
    log (fst (Retry.loop Sleep a b (call r f) k i last w)) = log w ++ repeat r j.
Proof.
  induction k as [|k IH]; intros i last w; simpl.
  - exists O. rewrite app_nil_r. split; [lia|split; [lia|reflexivity]].
  - unfold call at 1. destruct (f (env w)) as [e' [err|]]; simpl.
    + destruct (IH (i + 1) (Some err)
                  (Sleep (Retry.backoff b i) {| env := e'; clock := clock w; log := log w ++ [r] |}))
        as (j & Hj & _ & H).
      exists (Datatypes.S j). split; [lia|split; [lia|]].
      etransitivity; [exact H|]. simpl. rewrite <- app_assoc. reflexivity.
    + exists 1%nat. split; [lia|split; [lia|reflexivity]].
Qed.

Lemma SafeRetry_repeat (a : string) (b n : Z) (r : req) (f : E -> E * option string)
    (w : @world E) :
  exists j, (0 < j)%nat /\ (j <= Z.to_nat (if (n <? 1)%Z then 1%Z else n))%nat /\
    log (fst (Retry.SafeRetry Sleep a b (call r f) n w)) = log w ++ repeat r j.
Proof.
  unfold Retry.SafeRetry.
  destruct (loop_repeat a b r f (Z.to_nat (if n <? 1 then 1 else n)) 0 None w)
    as (j & H1 & H2 & H3).
  exists j. split; [|split; [exact H1|exact H3]]. apply H2.
  destruct (Z.ltb_spec n 1); lia.
Qed.

Lemma wait_detached_log (fuel : nat) (name : string) (dl : Z) : forall (w : @world E),
  exists j, log (fst (wait_detached GetStaticIp fuel name dl w))
              = log w ++ repeat (RGetStaticIp name) j.
Proof.
  induction fuel as [|f IH]; intros w; simpl.
  - exists O. rewrite app_nil_r. reflexivity.
  - destruct (clock w <? dl); [|exists O; rewrite app_nil_r; reflexivity].
    unfold call. destruct (GetStaticIp name (env w)) as [e' [out err]].
    set (w1 := {| env := e'; clock := clock w; log := log w ++ [RGetStaticIp name] |}).
    assert (Hw1 : exists j, log w1 = log w ++ repeat (RGetStaticIp name) j)
      by (exists 1%nat; reflexivity).
    assert (Hrec : exists j, log (fst (wait_detached GetStaticIp f name dl
                                          (Sleep (2 * sec) w1)))
                               = log w ++ repeat (RGetStaticIp name) j).
    { destruct (IH (Sleep (2 * sec) w1)) as [j Hj]. exists (Datatypes.S j).
      rewrite Hj. simpl. rewrite <- app_assoc. reflexivity. }
    destruct err, out as [[sip|]|]; try exact Hw1.
    destruct (IsAttached sip) as [[|]|]; try exact Hw1;
      (destruct (AttachedTo sip) as [at_|]; [|exact Hw1];
       destruct (String.eqb at_ ""); [exact Hw1|exact Hrec]).
Qed.

Lemma wait_released_log (fuel : nat) (name : string) (dl : Z) : forall (w : @world E),
  exists j, log (fst (wait_released GetStaticIp fuel name dl w))
              = log w ++ repeat (RGetStaticIp name) j.
Proof.
  induction fuel as [|f IH]; intros w; simpl.
  - exists O. rewrite app_nil_r. reflexivity.
  - destruct (clock w <? dl); [|exists O; rewrite app_nil_r; reflexivity].
    unfold call. destruct (GetStaticIp name (env w)) as [e' [out [err|]]].
    + exists 1%nat. reflexivity.
    + destruct (IH (Sleep (2 * sec) {| env := e'; clock := clock w;
                                       log := log w ++ [RGetStaticIp name] |})) as [j Hj].
      exists (Datatypes.S j). rewrite Hj. simpl. rewrite <- app_assoc. reflexivity.
Qed.

Lemma wait_detached_deadline (fuel : nat) (name : string) (dl : Z) : forall (w : @world E),
  snd (wait_detached GetStaticIp fuel name dl w) = false ->
  dl <= clock (fst (wait_detached GetStaticIp fuel name dl w)) \/
  clock w + 2 * sec * Z.of_nat fuel <= clock (fst (wait_detached GetStaticIp fuel name dl w)).
Proof.
  induction fuel as [|f IH]; intros w; simpl.
  - intros _. right. lia.
  - destruct (Z.ltb_spec (clock w) dl) as [Hlt|Hge]; [|intros _; left; exact Hge].
    unfold call. destruct (GetStaticIp name (env w)) as [e' [out err]].
    set (w1 := {| env := e'; clock := clock w; log := log w ++ [RGetStaticIp name] |}).
    assert (Hrec : snd (wait_detached GetStaticIp f name dl (Sleep (2 * sec) w1)) = false ->
      dl <= clock (fst (wait_detached GetStaticIp f name dl (Sleep (2 * sec) w1))) \/
      clock w + 2 * sec * Z.of_nat (Datatypes.S f)
        <= clock (fst (wait_detached GetStaticIp f name dl (Sleep (2 * sec) w1)))).
    { intros H. destruct (IH _ H) as [H'|H']; [left; exact H'|right].
      simpl in H'. unfold sec in *. lia. }
    destruct err, out as [[sip|]|]; try discriminate.
    destruct (IsAttached sip) as [[|]|]; try discriminate;
      (destruct (AttachedTo sip) as [at_|]; [|discriminate];
       destruct (String.eqb at_ ""); [discriminate|exact Hrec]).
Qed.

Lemma wait_released_deadline (fuel : nat) (name : string) (dl : Z) : forall (w : @world E),
  snd (wait_released GetStaticIp fuel name dl w) = false ->
  dl <= clock (fst (wait_released GetStaticIp fuel name dl w)) \/
  clock w + 2 * sec * Z.of_nat fuel <= clock (fst (wait_released GetStaticIp fuel name dl w)).
Proof.
  induction fuel as [|f IH]; intros w; simpl.
  - intros _. right. lia.
  - destruct (Z.ltb_spec (clock w) dl) as [Hlt|Hge]; [|intros _; left; exact Hge].
    unfold call. destruct (GetStaticIp name (env w)) as [e' [out [err|]]]; [discriminate|].
    intros H. destruct (IH _ H) as [H'|H']; [left; exact H'|right].
    simpl in H'. unfold sec in *. lia.
Qed.

Lemma rounds_cover (T : Z) : T < 2 * sec * Z.of_nat (rounds T).
Proof.
  unfold rounds, sec.
  pose proof (Z.div_mod T (2 * 1000000000) ltac:(lia)).
  pose proof (Z.mod_pos_bound T (2 * 1000000000) ltac:(lia)).
  lia.
Qed.

(** X: both deadline loops of the cleanup give up only once the clock has
    reached their deadline: [WaitStaticIPDetached] returns [false] (the
    "解绑超时" error) and the wait after the release fails (the
    "仍存在" error) no earlier than [timeout] after they start. *)
Theorem wait_loops_respect_deadline (name : string) (T : Z) (w : @world E) :
  (snd (WaitStaticIPDetached GetStaticIp name T w) = false ->
     clock w + T <= clock (fst (WaitStaticIPDetached GetStaticIp name T w))) /\
  (snd (wait_released GetStaticIp (rounds T) name (clock w + T) w) = false ->
     clock w + T <= clock (fst (wait_released GetStaticIp (rounds T) name (clock w + T) w))).
Proof.
  pose proof (rounds_cover T) as Hc. split.
  - unfold WaitStaticIPDetached. intros H.
    destruct (wait_detached_deadline _ _ _ w H); lia.
  - intros H. destruct (wait_released_deadline _ _ _ w H); lia.
Qed.
End Facts.

Lemma wait_loops_respect_deadline_witness :
  snd (WaitStaticIPDetached
         (fun _ e => (e, (Some (Some LightsailCallsFacts.sip_old), None)))
         "sip-old" (10 * sec) LightsailCallsFacts.w0) = false /\
  10 * sec <= clock (fst (WaitStaticIPDetached
         (fun _ e => (e, (Some (Some LightsailCallsFacts.sip_old), None)))
         "sip-old" (10 * sec) LightsailCallsFacts.w0)).
Proof.
  assert (H : snd (WaitStaticIPDetached
         (fun _ e => (e, (Some (Some LightsailCallsFacts.sip_old), None)))
         "sip-old" (10 * sec) LightsailCallsFacts.w0) = false) by reflexivity.
  split; [exact H|].
  exact (proj1 (wait_loops_respect_deadline _ "sip-old" (10 * sec) LightsailCallsFacts.w0) H).
Defined.

Section Shape.
Context {E : Type}.
Variable GetStaticIps : E -> E * (option (list StaticIp) * option string).
Variable GetStaticIp : string -> E -> E * (option (option StaticIp) * option string).
Variable DetachStaticIp : string -> E -> E * option string.
Variable ReleaseStaticIp : string -> E -> E * option string.

Lemma find_log (n : string) (w : @world E) :
  log (fst (FindAttachedStaticIPName GetStaticIps n w)) = log w ++ [RGetStaticIps].
Proof.
  unfold FindAttachedStaticIPName, call.
  destruct (GetStaticIps (env w)) as [e' [[sips|] [err|]]]; reflexivity.
Qed.

(** X: [DeletePreviousStaticIPOnlyForInstance] touches no static IP but
    the one [FindAttachedStaticIPName] reports: after its [GetStaticIps]
    it sends detach requests for that name, then lookups of it, then
    release requests for it, then lookups of it, in that order and
    nothing else; it reports a name only with a nil error, after at least
    one detach and one release of that name. *)
Theorem cleanup_requests (n : string) (w : @world E) :
  let old := fst (snd (FindAttachedStaticIPName GetStaticIps n w)) in
  let '(w', (name, err)) := DeletePreviousStaticIPOnlyForInstance GetStaticIps GetStaticIp
                              DetachStaticIp ReleaseStaticIp n w in
  exists d g1 rl g2,
    log w' = log w ++ RGetStaticIps :: repeat (RDetachStaticIp old) d
               ++ repeat (RGetStaticIp old) g1 ++ repeat (RReleaseStaticIp old) rl
               ++ repeat (RGetStaticIp old) g2 /\
    (name = ""%string \/ (name = old /\ err = None /\ (0 < d)%nat /\ (0 < rl)%nat)).
Proof.
  cbv zeta. pose proof (find_log n w) as Hfl.
  unfold DeletePreviousStaticIPOnlyForInstance.
  destruct (FindAttachedStaticIPName GetStaticIps n w) as [w1 [old ip]]. cbn [fst snd] in Hfl |- *.
  destruct (String.eqb old "").
  { exists O, O, O, O. simpl. rewrite Hfl. split; [reflexivity|left; reflexivity]. }
  destruct (SafeRetry_repeat "解绑旧静态IP" (1200 * 1000000) 8 (RDetachStaticIp old)
              (DetachStaticIp old) w1) as (d & Hd & _ & Hdl).
  destruct (Retry.SafeRetry Sleep "解绑旧静态IP" (1200 * 1000000)
              (call (RDetachStaticIp old) (DetachStaticIp old)) 8 w1) as [w2 r]; simpl in Hdl.
  destruct r as [e|].
  { exists d, O, O, O. simpl. rewrite Hdl, Hfl, <- app_assoc, app_nil_r.
    split; [reflexivity|left; reflexivity]. }
  destruct (wait_detached_log GetStaticIp (rounds (120 * sec)) old (clock w2 + 120 * sec) w2)
    as [g1 Hg1].
  unfold WaitStaticIPDetached.
  destruct (wait_detached GetStaticIp (rounds (120 * sec)) old (clock w2 + 120 * sec) w2)
    as [w3 ok]; simpl in Hg1.
  destruct ok; cbn [negb].
  2:{ exists d, g1, O, O. simpl. rewrite Hg1, Hdl, Hfl, app_nil_r, <- !app_assoc.
      split; [reflexivity|left; reflexivity]. }
  destruct (SafeRetry_repeat "释放旧静态IP" (1300 * 1000000) 12 (RReleaseStaticIp old)
              (ReleaseStaticIp old) w3) as (rl & Hr & _ & Hrl).
  destruct (Retry.SafeRetry Sleep "释放旧静态IP" (1300 * 1000000)
              (call (RReleaseStaticIp old) (ReleaseStaticIp old)) 12 w3) as [w4 r2];
    simpl in Hrl.
  destruct r2 as [e|].
  { exists d, g1, rl, O. simpl. rewrite Hrl, Hg1, Hdl, Hfl, app_nil_r, <- !app_assoc.
    split; [reflexivity|left; reflexivity]. }
  destruct (wait_released_log GetStaticIp (rounds (90 * sec)) old (clock w4 + 90 * sec) w4)
    as [g2 Hg2].
  destruct (wait_released GetStaticIp (rounds (90 * sec)) old (clock w4 + 90 * sec) w4)
    as [w5 gone]; simpl in Hg2.
  destruct gone; simpl; exists d, g1, rl, g2;
    (rewrite Hg2, Hrl, Hg1, Hdl, Hfl, <- !app_assoc; simpl; split; [reflexivity|]).
  - right. auto.
  - left. reflexivity.
Qed.

Lemma find_attached_none (n : string) (sips : list StaticIp) :
  (forall si, In si sips -> ~ LightsailOpsFacts.attached_to n si) ->
  fst (find_attached n sips) = ""%string.
Proof.
  induction sips as [|si l IH]; intros H; [reflexivity|]. simpl.
  assert (Hl : fst (find_attached n l) = ""%string) by (apply IH; intros x Hx; apply H; now right).
  destruct (AttachedTo si) as [at_|] eqn:Hat; [|exact Hl].
  destruct (String.eqb_spec at_ n) as [->|Hne].
  - destruct (IsAttached si) as [[|]|] eqn:Hia; try exact Hl;
      exfalso; apply (H si (or_introl eq_refl)); split; congruence.
  - destruct (IsAttached si) as [[|]|]; exact Hl.
Qed.

(** X: when [GetStaticIps] fails, or lists no static IP attached to the
    instance, [DeletePreviousStaticIPOnlyForInstance] returns [("", nil)]
    right after that single request, without waiting. *)
Theorem cleanup_nothing_attached (n : string) (w : @world E)
    (Hnone : match snd (GetStaticIps (env w)) with
             | (Some sips, None) => forall si, In si sips -> ~ LightsailOpsFacts.attached_to n si
             | _ => True
             end) :
  DeletePreviousStaticIPOnlyForInstance GetStaticIps GetStaticIp DetachStaticIp
    ReleaseStaticIp n w
    = ({| env := fst (GetStaticIps (env w)); clock := clock w;
          log := log w ++ [RGetStaticIps] |}, (""%string, None)).
Proof.
  unfold DeletePreviousStaticIPOnlyForInstance, FindAttachedStaticIPName, call.
  destruct (GetStaticIps (env w)) as [e' [[sips|] [err|]]]; simpl in Hnone |- *;
    try reflexivity.
  pose proof (find_attached_none n sips Hnone) as Hf.
  destruct (find_attached n sips) as [old ip]. simpl in Hf. subst old. reflexivity.
Qed.
End Shape.

Lemma cleanup_nothing_attached_witness :
  (forall si, In si [LightsailCallsFacts.sip_old] ->
     ~ LightsailOpsFacts.attached_to "db-2" si) /\
  snd (DeletePreviousStaticIPOnlyForInstance
         (fun e => (e, (Some [LightsailCallsFacts.sip_old], None)))
         (fun _ e => (e, (None, None))) (fun _ e => (e, None)) (fun _ e => (e, None))
         "db-2" LightsailCallsFacts.w0) = (""%string, None).
Proof.
  assert (H : forall si, In si [LightsailCallsFacts.sip_old] ->
                ~ LightsailOpsFacts.attached_to "db-2" si).
  { intros si [<-|[]] [Hat _]. discriminate. }
  split; [exact H|].
  rewrite (cleanup_nothing_attached (fun e => (e, (Some [LightsailCallsFacts.sip_old], None)))
             (fun _ e => (e, (None, None))) (fun _ e => (e, None)) (fun _ e => (e, None))
             "db-2" LightsailCallsFacts.w0 H).
  reflexivity.
Defined.

End CleanupFacts.

Module LightsailOpsCallFacts.
Import Lightsail LightsailCalls LightsailOps.

Section Facts.
Context {E : Type}.
Variable GetStaticIps : E -> E * (option (list StaticIp) * option string).
Variable GetStaticIp : string -> E -> E * (option (option StaticIp) * option string).
Variable DetachStaticIp : string -> E -> E * option string.
Variable ReleaseStaticIp : string -> E -> E * option string.
Variable GetInstances : E -> E * (option (list Instance) * option string).
Variable CreateInstances : CreateInstancesInput -> E -> E * option string.
Variable OpenInstancePublicPorts : string -> PortInfo -> E -> E * option string.
Variable cli_RebootInstance : string -> E -> E * option string.
Variable AllocateStaticIp : string -> E -> E * option string.
Variable AttachStaticIp : string -> string -> E -> E * option string.
Variable ToLowerRune : Z -> Z.

Lemma aloop_repeat (a : string) (b : Z) (r : areq) (f : E -> E * option string) (k : nat) :
  forall i last (w : @aworld E), exists j, (j <= k)%nat /\ ((0 < k)%nat -> (0 < j)%nat) /\
    alog (fst (Retry.loop aSleep a b (acall r f) k i last w)) = alog w ++ repeat r j.
Proof.
  induction k as [|k IH]; intros i last w; simpl.
  - exists O. rewrite app_nil_r. split; [lia|split; [lia|reflexivity]].
  - unfold acall at 1. destruct (f (aenv w)) as [e' [err|]]; simpl.
    + destruct (IH (i + 1) (Some err)
                  (aSleep (Retry.backoff b i)
                     {| aenv := e'; aclock := aclock w; alog := alog w ++ [r] |}))
        as (j & Hj & _ & H).
      exists (Datatypes.S j). split; [lia|split; [lia|]].
      etransitivity; [exact H|]. simpl. rewrite <- app_assoc. reflexivity.
    + exists 1%nat. split; [lia|split; [lia|reflexivity]].
Qed.

Lemma aSafeRetry_repeat (a : string) (b n : Z) (r : areq) (f : E -> E * option string)
    (w : @aworld E) :
  exists j, (0 < j)%nat /\ (j <= Z.to_nat (if (n <? 1)%Z then 1%Z else n))%nat /\
    alog (fst (Retry.SafeRetry aSleep a b (acall r f) n w)) = alog w ++ repeat r j.
Proof.
  unfold Retry.SafeRetry.
  destruct (aloop_repeat a b r f (Z.to_nat (if n <? 1 then 1 else n)) 0 None w)
    as (j & H1 & H2 & H3).
  exists j. split; [|split; [exact H1|exact H3]]. apply H2.
  destruct (Z.ltb_spec n 1); lia.
Qed.

(** X: [CreateInstance] sends one [CreateInstances] request, for exactly
    this instance and with a non-empty IP type ([dualstack] when the input
    leaves it empty); the only other request it may send is opening ports
    0-65535 of all protocols on the same instance, and only when
    [EnableFWAll] is set and the creation succeeded, 4 s later. A nil
    error implies the creation succeeded. *)
Theorem CreateInstance_requests (input : CreateInstanceInput) (w : @aworld E) :
  let '(w', err) := CreateInstance CreateInstances OpenInstancePublicPorts input w in
  exists ci rest,
    alog w' = alog w ++ RCreateInstances ci :: rest /\
    ci_InstanceNames ci = [InstanceName input] /\
    ci_IpAddressType ci <> ""%string /\
    (IPAddressType input = ""%string -> ci_IpAddressType ci = "dualstack"%string) /\
    (rest = [] \/
     (rest = [ROpenInstancePublicPorts (InstanceName input) allPorts] /\
      EnableFWAll input = true /\ snd (CreateInstances ci (aenv w)) = None /\
      aclock w' = aclock w + 4 * sec)) /\
    (err = None -> snd (CreateInstances ci (aenv w)) = None).
Proof.
  unfold CreateInstance.
  set (ipType := if String.eqb (IPAddressType input) "" then "dualstack"%string
                 else IPAddressType input).
  assert (Hip : ipType <> ""%string /\
                (IPAddressType input = ""%string -> ipType = "dualstack"%string)).
  { unfold ipType. destruct (String.eqb_spec (IPAddressType input) "") as [->|Hne].
    - split; [discriminate|reflexivity].
    - split; [exact Hne|intros; contradiction]. }
  set (ci := {| ci_InstanceNames := [InstanceName input];
                ci_AvailabilityZone := in_AvailabilityZone input;
                ci_BlueprintId := BlueprintID input; ci_BundleId := in_BundleID input;
                ci_UserData := UserData input; ci_IpAddressType := ipType |}).
  unfold acall at 1. destruct (CreateInstances ci (aenv w)) as [e1 [err|]] eqn:Hc.
  - exists ci, []. simpl. rewrite Hc. repeat split; try apply Hip; auto. discriminate.
  - destruct (EnableFWAll input) eqn:Hfw.
    + unfold acall. simpl.
      destruct (OpenInstancePublicPorts (InstanceName input) allPorts e1) as [e2 [err2|]];
        exists ci, [ROpenInstancePublicPorts (InstanceName input) allPorts]; simpl;
        rewrite Hc; rewrite <- app_assoc; repeat split; try apply Hip; auto;
        right; repeat split; auto; unfold sec; lia.
    + exists ci, []. simpl. rewrite Hc. repeat split; try apply Hip; auto.
Qed.

(** X: [RebootInstance] sends between 1 and 6 [RebootInstance] requests
    for the instance and nothing else; [OpenAllPorts] likewise sends
    between 1 and 6 requests opening ports 0-65535 of all protocols on the
    instance and nothing else. *)
Theorem Reboot_OpenAllPorts_requests (name : string) (w : @aworld E) :
  (exists j, (1 <= j <= 6)%nat /\
     alog (fst (RebootInstance cli_RebootInstance name w))
       = alog w ++ repeat (RRebootInstance name) j) /\
  (exists j, (1 <= j <= 6)%nat /\
     alog (fst (OpenAllPorts OpenInstancePublicPorts name w))
       = alog w ++ repeat (ROpenInstancePublicPorts name allPorts) j).
Proof.
  split.
  - destruct (aSafeRetry_repeat "重启实例" (1200 * 1000000) 6 (RRebootInstance name)
                (cli_RebootInstance name) w) as (j & H1 & H2 & H3).
    exists j. split; [simpl in H2; lia|exact H3].
  - destruct (aSafeRetry_repeat "开放全端口" (1200 * 1000000) 6
                (ROpenInstancePublicPorts name allPorts)
                (OpenInstancePublicPorts name allPorts) w) as (j & H1 & H2 & H3).
    exists j. split; [simpl in H2; lia|exact H3].
Qed.

(** X: when [GetInstances] lists the instance (the first one with that
    name) without a public IPv4, [SwapStaticIPForInstance] fails with the
    IPv6-only error and sends no request after [GetInstances]: the old
    static IP is left alone and no new one is allocated. *)
Theorem Swap_ipv6_only (n : string) (w : @aworld E) (insts : list Instance)
    (ins : Instance)
    (Hget : snd (GetInstances (aenv w)) = (Some insts, None))
    (Hfind : List.find (fun i => String.eqb (str (ins_Name i)) n) insts = Some ins)
    (Hv4 : str (PublicIpAddress ins) = ""%string) :
  snd (SwapStaticIPForInstance GetStaticIps GetStaticIp DetachStaticIp ReleaseStaticIp
         GetInstances AllocateStaticIp AttachStaticIp ToLowerRune n w)
    = Some "该实例无公网 IPv4（可能是 IPv6-only），无法换静态IP"%string /\
  alog (fst (SwapStaticIPForInstance GetStaticIps GetStaticIp DetachStaticIp ReleaseStaticIp
               GetInstances AllocateStaticIp AttachStaticIp ToLowerRune n w))
    = alog w ++ [RGetInstances].
Proof.
  unfold SwapStaticIPForInstance, acall.
  destruct (GetInstances (aenv w)) as [e' [insOut err]]. simpl in Hget.
  inversion Hget; subst insOut err. rewrite Hfind, Hv4. simpl. split; reflexivity.
Qed.

Lemma cleanup_log (n : string) (w : @aworld E) :
  exists cl, alog (fst (cleanup GetStaticIps GetStaticIp DetachStaticIp ReleaseStaticIp n w))
               = alog w ++ map Cleanup cl.
Proof.
  unfold cleanup.
  destruct (DeletePreviousStaticIPOnlyForInstance _ _ _ _ n _) as [w' res].
  exists (log w'). reflexivity.
Qed.

(** X: every static IP [SwapStaticIPForInstance] allocates or attaches is
    the one new name [sip-<sanitize(n)>-<unix seconds>] it computes from
    the clock [t] read when the cleanup returns: after [GetInstances] and
    the cleanup's requests it sends up to 8 allocations of that name, then
    up to 8 attachments of that name to the instance, and nothing else; a
    nil error comes only after at least one of each. *)
Theorem Swap_requests (n : string) (w : @aworld E) :
  let t := aclock (fst (cleanup GetStaticIps GetStaticIp DetachStaticIp ReleaseStaticIp n
                          (fst (acall RGetInstances GetInstances w)))) in
  let '(w', err) := SwapStaticIPForInstance GetStaticIps GetStaticIp DetachStaticIp
                      ReleaseStaticIp GetInstances AllocateStaticIp AttachStaticIp
                      ToLowerRune n w in
  exists cl al at_,
    alog w' = alog w ++ RGetInstances :: map Cleanup cl
                ++ repeat (RAllocateStaticIp (newStaticIpName ToLowerRune n t)) al
                ++ repeat (RAttachStaticIp (newStaticIpName ToLowerRune n t) n) at_ /\
    (al <= 8)%nat /\ (at_ <= 8)%nat /\
    (err = None -> (0 < al)%nat /\ (0 < at_)%nat).
Proof.
  cbv zeta. unfold SwapStaticIPForInstance.
  destruct (acall RGetInstances GetInstances w) as [w1 [insOut err]] eqn:Ha.
  assert (Hw1 : alog w1 = alog w ++ [RGetInstances]).
  { unfold acall in Ha. destruct (GetInstances (aenv w)). inversion Ha. reflexivity. }
  clear Ha. cbn [fst].
  match goal with |- context [if ?c then _ else _] => destruct c end.
  { exists [], O, O. simpl. rewrite Hw1.
    split; [reflexivity|split; [lia|split; [lia|discriminate]]]. }
  destruct (cleanup_log n w1) as [cl Hcl].
  destruct (cleanup GetStaticIps GetStaticIp DetachStaticIp ReleaseStaticIp n w1)
    as [w2 res]. cbn [fst] in Hcl |- *.
  set (nn := newStaticIpName ToLowerRune n (aclock w2)).
  destruct (aSafeRetry_repeat "申请新静态IP" (1200 * 1000000) 8 (RAllocateStaticIp nn)
              (AllocateStaticIp nn) w2) as (al & Hal0 & Hal1 & Hal).
  destruct (Retry.SafeRetry aSleep "申请新静态IP" (1200 * 1000000)
              (acall (RAllocateStaticIp nn) (AllocateStaticIp nn)) 8 w2) as [w3 r].
  cbn [fst] in Hal. simpl in Hal1.
  destruct r as [e|].
  { exists cl, al, O. fold nn. rewrite Hal, Hcl, Hw1. simpl.
    rewrite <- !app_assoc, app_nil_r. simpl.
    split; [reflexivity|split; [lia|split; [lia|discriminate]]]. }
  destruct (aSafeRetry_repeat "绑定新静态IP" (1200 * 1000000) 8 (RAttachStaticIp nn n)
              (AttachStaticIp nn n) w3) as (at_ & Hat0 & Hat1 & Hat).
  destruct (Retry.SafeRetry aSleep "绑定新静态IP" (1200 * 1000000)
              (acall (RAttachStaticIp nn n) (AttachStaticIp nn n)) 8 w3) as [w4 r2].
  cbn [fst] in Hat. simpl in Hat1.
  destruct r2; exists cl, al, at_; fold nn;
    rewrite Hat, Hal, Hcl, Hw1; simpl; rewrite <- !app_assoc; simpl;
    (split; [reflexivity|split; [lia|split; [lia|]]]); [discriminate|auto].
Qed.
End Facts.

Definition web_v6 : Instance :=
  {| ins_Name := Some "web-6"%string; ins_State := None; PublicIpAddress := None;
     Ipv6Addresses := ["2600:1f18::1"%string]; Location := None; BundleId := None;
     CreatedAt := None |}.

Definition aw0 : @aworld unit := {| aenv := tt; aclock := 0; alog := [] |}.

Lemma Swap_ipv6_only_witness :
  snd ((fun e : unit => (e, (Some [web_v6], @None string))) (aenv aw0))
    = (Some [web_v6], None) /\
  snd (SwapStaticIPForInstance
         (fun e => (e, (None, Some "x"%string))) (fun _ e => (e, (None, None)))
         (fun _ e => (e, None)) (fun _ e => (e, None))
         (fun e : unit => (e, (Some [web_v6], @None string)))
         (fun _ e => (e, None)) (fun _ _ e => (e, None)) ascii_lower "web-6" aw0)
    = Some "该实例无公网 IPv4（可能是 IPv6-only），无法换静态IP"%string.
Proof.
  split; [reflexivity|].
  exact (proj1 (Swap_ipv6_only
           (fun e => (e, (None, Some "x"%string))) (fun _ e => (e, (None, None)))
           (fun _ e => (e, None)) (fun _ e => (e, None))
           (fun e : unit => (e, (Some [web_v6], @None string)))
           (fun _ e => (e, None)) (fun _ _ e => (e, None)) ascii_lower "web-6" aw0
           [web_v6] web_v6 eq_refl eq_refl eq_refl)).
Defined.

End LightsailOpsCallFacts.

Module NameFacts.
Import Lightsail LightsailCalls LightsailOps.

(** X: the static-IP name [SwapStaticIPForInstance] allocates is
    ["sip-" ++ mid ++ "-" ++] the Unix seconds, where [mid] is non-empty
    and made only of [a-z], [0-9] and [-], whatever bytes the instance
    name holds. *)
Theorem newStaticIpName_shape (ToLowerRune : Z -> Z) (n : string) (t : Z) :
  exists mid,
    newStaticIpName ToLowerRune n t = ("sip-" ++ mid ++ "-" ++ Quota.FormatInt (t / sec))%string /\
    mid <> ""%string /\
    Forall (fun a => keep (Z.of_nat (nat_of_ascii a)) = true) (list_ascii_of_string mid).
Proof.
  destruct (LightsailOpsFacts.sanitize_keep ToLowerRune (utf8_decode (bytes n)))
    as [Hne Hk].
  exists (ascii_string (sanitize ToLowerRune (utf8_decode (bytes n)))).
  split; [reflexivity|split].
  - unfold ascii_string.
    destruct (sanitize ToLowerRune (utf8_decode (bytes n))); [contradiction|discriminate].
  - unfold ascii_string. rewrite list_ascii_of_string_of_list_ascii.
    apply Forall_map. eapply Forall_impl; [exact Hk|]. simpl. intros r Hr.
    pose proof (LightsailOpsFacts.keep_range r Hr).
    rewrite nat_ascii_embedding by lia. rewrite Z2Nat.id by lia. exact Hr.
Qed.

End NameFacts.

Module ProxyFacts.
Import Proxy.

(** X: [CheckProxyExitIP] returns a nil error only when the client is
    built and ipinfo answers 200 with a decoded body [j]; the IP is then
    [TrimSpace(j.ip)], non-empty, and the AS text is [TrimSpace(j.org)],
    or ["N/A"] when that is empty. With an error both strings are
    empty. *)
Theorem CheckProxyExitIP_result (baseHTTPClient : string -> option string)
    (Do : http_result) (proxy : string) :
  let '(ip, asText, err) := CheckProxyExitIP baseHTTPClient Do proxy in
  (err = None ->
     baseHTTPClient (Store.TrimSpace proxy) = None /\
     exists j, Do = Response 200 (inr j) /\
       ip = Store.TrimSpace (IP j) /\ ip <> ""%string /\
       asText = (if String.eqb (Store.TrimSpace (Org j)) "" then "N/A"%string
                 else Store.TrimSpace (Org j)) /\
       asText <> ""%string) /\
  (err <> None -> ip = ""%string /\ asText = ""%string).
Proof.
  unfold CheckProxyExitIP.
  destruct (baseHTTPClient (Store.TrimSpace proxy)) eqn:Hc; [split; [discriminate|auto]|].
  destruct Do as [e|status [e|j]]; [split; [discriminate|auto]|..];
    (destruct (Z.eqb_spec status 200) as [Hs|Hs]; cbn [negb];
       [|split; [discriminate|auto]]);
    [split; [discriminate|auto]|].
  destruct (String.eqb_spec (Store.TrimSpace (IP j)) "") as [He|He];
    [split; [discriminate|auto]|].
  split; [|intros H; contradiction H; reflexivity].
  intros _. split; [reflexivity|]. exists j. subst status.
  do 4 (split; [reflexivity || exact He|]).
  destruct (String.eqb_spec (Store.TrimSpace (Org j)) "") as [Ho|Ho]; [discriminate|exact Ho].
Qed.

End ProxyFacts.
